(** * Verification of the BinanceImporter candle collector

    A shallow embedding of [src/candle_collector_debug.py]
    (class [CandleCollector], its [DatabaseManager] and [BinanceAPI]
    collaborators) and of [src/technical_indicators.py]. *)

From Stdlib Require Import ZArith List String Bool Lia.
From Stdlib Require PrimFloat.
From stdpp Require Import base gmap strings list.
Import ListNotations.
Open Scope Z_scope.
Open Scope string_scope.
Open Scope list_scope.

(** ** Python outcomes: a value, or an exception escaping to the caller *)

Inductive Exc (A : Type) : Type :=
| Ok (a : A)
| Raise (msg : string).
Arguments Ok {A} a.
Arguments Raise {A} msg.

(** ** Data model *)

(** One row of the [/api/v3/klines] answer: [kline[0]] is the open time,
    [kline[6]] the close time; the other nine fields (prices, volumes,
    trade count) are kept as the decimal text the API sends. *)
Record Kline := mkKline {
  k_open_time : Z;
  k_close_time : Z;
  k_payload : list string
}.

(** The tuple built by [parse_kline_data]. *)
Record CandleRow := mkCandleRow {
  c_symbol : string;
  c_interval : string;
  c_open_time : Z;
  c_close_time : Z;
  c_payload : list string
}.

(** A row of [collection_control] ([updated_at] omitted). *)
Record Cursor := mkCursor {
  last_collected_time : option Z;
  status : string;
  error_count : Z;
  last_error : option string
}.

(** A row of [collection_logs] ([execution_time], a float duration, omitted). *)
Record LogRow := mkLogRow {
  lg_symbol : string;
  lg_interval : string;
  lg_collection_type : string;
  lg_start_time : Z;
  lg_end_time : Z;
  lg_records : Z;
  lg_status : string;
  lg_error : option string
}.

(** The MySQL database: the [candles] table, the [collection_control]
    table keyed by [(symbol, interval_type)] and the [collection_logs] table. *)
Record Store := mkStore {
  st_candles : list CandleRow;
  st_control : gmap (string * string) Cursor;
  st_logs : list LogRow
}.

(** The query parameters [get_klines] sends. *)
Record Request := mkRequest {
  rq_symbol : string;
  rq_interval : string;
  rq_start : option Z;
  rq_end : option Z;
  rq_limit : Z
}.

(** The database statements of the collector; any of them may raise
    [MySQLError] (after a rollback of its own transaction). *)
Inductive DbOp :=
| OpReadControl      (* get_last_collected_time *)
| OpReadLastCandle   (* get_last_candle_time *)
| OpInsertCandles    (* insert_candles *)
| OpUpsertControl    (* update_collection_control *)
| OpLogCollection.   (* log_collection *)

(** The world outside the code: the wall clock (frozen during one run, in
    milliseconds since the epoch), the local time zone as
    [time.localtime(u).tm_gmtoff] reports it (the UTC offset in seconds in
    force at epoch second [u]), the answer of the API (after
    [_make_request]'s retries) and which statements fail. *)
Record Env := mkEnv {
  env_now : Z;
  env_utcoffset : Z -> Z;
  env_fetch : Request -> Exc (list Kline);
  env_db_fail : DbOp -> option string
}.

(** What a run changes: the database, and the requests sent to the API. *)
Record World := mkWorld {
  w_db : Store;
  w_calls : list Request
}.

(** ** The interval tables of [CandleCollector] *)

Definition INTERVAL_MS : list (string * Z) :=
  [("1m", 60000); ("3m", 180000); ("5m", 300000); ("15m", 900000);
   ("30m", 1800000); ("1h", 3600000); ("2h", 7200000); ("4h", 14400000);
   ("6h", 21600000); ("8h", 28800000); ("12h", 43200000); ("1d", 86400000);
   ("3d", 259200000); ("1w", 604800000); ("1M", 2592000000)].

Fixpoint assoc_lookup {A} (k : string) (l : list (string * A)) : option A :=
  match l with
  | [] => None
  | (k', v) :: r => if String.eqb k k' then Some v else assoc_lookup k r
  end.

(** [self.INTERVAL_MS[interval]]: a [KeyError] whose text is the quoted key. *)
Definition interval_ms (interval : string) : Exc Z :=
  match assoc_lookup interval INTERVAL_MS with
  | Some v => Ok v
  | None => Raise ("'" ++ interval ++ "'")%string
  end.

(** Python truthiness of an optional int: [None] and [0] are false. *)
Definition truthy (o : option Z) : option Z :=
  match o with
  | Some z => if Z.eqb z 0 then None else Some z
  | None => None
  end.

(** [x or 0] on an optional int. *)
Definition or0 (o : option Z) : Z :=
  match o with Some z => z | None => 0 end.

Definition DAY_MS : Z := 86400000.

(** ** Naive local datetimes

    A naive [datetime] is held as its wall-clock reading in milliseconds
    since [datetime(1970, 1, 1)]; its microseconds are whole milliseconds,
    as the frozen clock is. *)

(** [local(u)] of [datetime._mktime]: the local wall-clock second of epoch second [u]. *)
Definition local_seconds (env : Env) (u : Z) : Z := u + env_utcoffset env u.

(** [datetime._mktime] (C: [local_to_seconds]) for a naive datetime of wall
    second [t] with [fold = 0], which [datetime - timedelta] always yields;
    [max_fold_seconds = 24 * 3600]. *)
Definition local_to_seconds (env : Env) (t : Z) : Z :=
  let local := local_seconds env in
  let a := local t - t in
  let u1 := t - a in
  let t1 := local u1 in
  let b := if Z.eqb t1 t then
             let u2 := u1 - 86400 in local u2 - u2
           else t1 - u1 in
  if Z.eqb t1 t && Z.eqb a b then u1
  else
    let u2 := t - b in
    let t2 := local u2 in
    if Z.eqb t2 t then u2
    else if Z.eqb t1 t then u1
    else Z.max u1 u2.

(** [int(d.timestamp() * 1000)] for a naive datetime [d] of wall-clock
    reading [wall] ms: [_mktime() + microsecond / 1e6], the product taken
    as exact milliseconds. *)
Definition naive_timestamp_ms (env : Env) (wall : Z) : Z :=
  1000 * local_to_seconds env (wall / 1000) + wall mod 1000.

(** [datetime.now()]: the local wall-clock reading of the frozen clock. *)
Definition now_local_ms (env : Env) : Z :=
  env_now env + 1000 * env_utcoffset env (env_now env / 1000).

(** [datetime.utcnow()]: the UTC wall-clock reading of the frozen clock. *)
Definition utcnow_ms (env : Env) : Z := env_now env.

(** ** The state and exception monad of one run *)

Definition M (A : Type) : Type := World -> Exc A * World.

Definition ret {A} (a : A) : M A := fun w => (Ok a, w).

Definition bind {A B} (m : M A) (k : A -> M B) : M B :=
  fun w => match m w with
           | (Ok a, w') => k a w'
           | (Raise e, w') => (Raise e, w')
           end.

Definition raise {A} (e : string) : M A := fun w => (Raise e, w).

Definition lift {A} (r : Exc A) : M A :=
  fun w => match r with Ok a => (Ok a, w) | Raise e => (Raise e, w) end.

(** [try m except Exception as e: h e] *)
Definition try_except {A} (m : M A) (h : string -> M A) : M A :=
  fun w => match m w with
           | (Ok a, w') => (Ok a, w')
           | (Raise e, w') => h e w'
           end.

Notation "x <- m ;; k" := (bind m (fun x => k))
  (at level 64, m at next level, right associativity).
Notation "m ;;; k" := (bind m (fun _ => k))
  (at level 64, right associativity).

(** ** Table operations *)

Definition same_key (a b : CandleRow) : bool :=
  String.eqb (c_symbol a) (c_symbol b) && String.eqb (c_interval a) (c_interval b)
  && Z.eqb (c_open_time a) (c_open_time b).

(** [INSERT IGNORE]: a row whose key [(symbol, interval_type, open_time)] is
    already present (also from earlier in the same batch) is skipped; the
    result is the table and the [rowcount] of inserted rows. *)
Fixpoint insert_ignore (tbl rows : list CandleRow) : list CandleRow * Z :=
  match rows with
  | [] => (tbl, 0)
  | r :: rs =>
      if existsb (same_key r) tbl then insert_ignore tbl rs
      else let '(t, n) := insert_ignore (tbl ++ [r]) rs in (t, n + 1)
  end.

(** [SELECT MAX(open_time) ... WHERE symbol = %s AND interval_type = %s]. *)
Definition max_open_time (tbl : list CandleRow) (symbol interval : string) : option Z :=
  fold_left (fun acc c =>
      if String.eqb (c_symbol c) symbol && String.eqb (c_interval c) interval
      then Some (match acc with Some m => Z.max m (c_open_time c) | None => c_open_time c end)
      else acc) tbl None.

(** [INSERT ... ON DUPLICATE KEY UPDATE] of [update_collection_control]. *)
Definition upsert_cursor (old : option Cursor) (last_time : Z) (st : string)
    (error_msg : option string) : Cursor :=
  match old with
  | None => mkCursor (Some last_time) st (if String.eqb st "error" then 1 else 0) error_msg
  | Some c => mkCursor (Some last_time) st
                (if String.eqb st "error" then error_count c + 1 else 0) error_msg
  end.

Definition parse_kline_data (k : Kline) (symbol interval : string) : CandleRow :=
  mkCandleRow symbol interval (k_open_time k) (k_close_time k) (k_payload k).

Definition set_db (w : World) (s : Store) : World := mkWorld s (w_calls w).

Section Collector.

Variable env : Env.

(** A database statement: raises its [MySQLError] (nothing written), or runs. *)
Definition db_run {A} (op : DbOp) (f : Store -> A * Store) : M A :=
  fun w => match env_db_fail env op with
           | Some e => (Raise e, w)
           | None => let '(a, s') := f (w_db w) in (Ok a, set_db w s')
           end.

Definition get_last_collected_time (symbol interval : string) : M (option Z) :=
  db_run OpReadControl (fun s =>
    (match st_control s !! (symbol, interval) with
     | Some c => last_collected_time c
     | None => None
     end, s)).

(** [result[0]['last_time'] if result and result[0]['last_time'] else None]. *)
Definition get_last_candle_time (symbol interval : string) : M (option Z) :=
  db_run OpReadLastCandle (fun s => (truthy (max_open_time (st_candles s) symbol interval), s)).

Definition insert_candles (candles_data : list CandleRow) : M Z :=
  match candles_data with
  | [] => ret 0
  | _ => db_run OpInsertCandles (fun s =>
           let '(t, n) := insert_ignore (st_candles s) candles_data in
           (n, mkStore t (st_control s) (st_logs s)))
  end.

Definition update_collection_control (symbol interval : string) (last_time : Z)
    (st : string) (error_msg : option string) : M unit :=
  db_run OpUpsertControl (fun s =>
    (tt, mkStore (st_candles s)
           (<[(symbol, interval) := upsert_cursor (st_control s !! (symbol, interval))
                                      last_time st error_msg]> (st_control s))
           (st_logs s))).

Definition log_collection (symbol interval collection_type : string)
    (start_time end_time records : Z) (st : string) (error_msg : option string) : M unit :=
  db_run OpLogCollection (fun s =>
    (tt, mkStore (st_candles s) (st_control s)
           (st_logs s ++ [mkLogRow symbol interval collection_type start_time end_time
                            records st error_msg]))).

(** [BinanceAPI.get_klines]: [startTime] and [endTime] are sent only when
    truthy, the limit is capped at 1000; the request is recorded. *)
Definition get_klines (symbol interval : string) (start_time end_time : option Z)
    (limit : Z) : M (list Kline) :=
  fun w =>
    let rq := mkRequest symbol interval (truthy start_time) (truthy end_time) (Z.min limit 1000) in
    (env_fetch env rq, mkWorld (w_db w) (w_calls w ++ [rq])).

(** [int((datetime.utcnow() - timedelta(days=30)).timestamp() * 1000)]: the
    naive UTC wall time is read back as local time. *)
Definition thirty_days_back : Z :=
  naive_timestamp_ms env (utcnow_ms env - 30 * DAY_MS).

(** [end_time or int(time.time() * 1000)] *)
Definition end_or_now (end_time : option Z) : Z :=
  match truthy end_time with Some e => e | None => env_now env end.

(** The open-candle test: [if kline[6] > int(time.time() * 1000): continue]. *)
Definition still_open (k : Kline) : bool := k_close_time k >? env_now env.

(** The window resolution at the top of the [try] block. *)
Definition resolve_start (symbol interval : string) (start_time : option Z) : M Z :=
  match start_time with
  | Some s => ret s
  | None =>
      last_time <- get_last_collected_time symbol interval;;
      match truthy last_time with
      | Some lt => ms <- lift (interval_ms interval);; ret (lt + ms)
      | None => ret thirty_days_back
      end
  end.

Definition filter_closed (symbol interval : string) (klines : list Kline) : list CandleRow :=
  map (fun k => parse_kline_data k symbol interval) (List.filter (fun k => negb (still_open k)) klines).

(** The rest of the [try] block, once [start_time] is known. *)
Definition collect_body (symbol interval : string) (start_time : Z) (end_time : option Z)
    (limit : Z) : M (Z * string) :=
  klines <- get_klines symbol interval (Some start_time) end_time limit;;
  match klines with
  | [] => ret (0, "success")
  | _ =>
      let candles_data := filter_closed symbol interval klines in
      inserted <- insert_candles candles_data;;
      match candles_data with
      | [] => ret tt
      | c :: cs =>
          update_collection_control symbol interval
            (fold_left Z.max (map c_open_time cs) (c_open_time c)) "active" None
      end;;;
      log_collection symbol interval "single" start_time (end_or_now end_time)
        inserted "success" None;;;
      ret (inserted, "success")
  end.

(** The [except Exception as e] block. *)
Definition on_error (symbol interval : string) (start_time end_time : option Z)
    (error_msg : string) : M (Z * string) :=
  log_collection symbol interval "single" (or0 (truthy start_time)) (end_or_now end_time)
    0 "error" (Some error_msg);;;
  last_time <- get_last_candle_time symbol interval;;
  update_collection_control symbol interval (or0 last_time) "error" (Some error_msg);;;
  ret (0, error_msg).

(** [CandleCollector.collect_single_symbol]: the handler sees [start_time]
    as it was when the exception was raised. *)
Definition collect_single_symbol (symbol interval : string)
    (start_time end_time : option Z) (limit : Z) : M (Z * string) :=
  fun w =>
    match resolve_start symbol interval start_time w with
    | (Ok st, w1) =>
        try_except (collect_body symbol interval st end_time limit)
          (on_error symbol interval (Some st) end_time) w1
    | (Raise e, w1) => on_error symbol interval start_time end_time e w1
    end.

End Collector.

(** ** Gap filling: [CandleCollector.fill_missing_data] *)


Section GapFill.

Variable env : Env.
Variable stop : nat -> bool.

(** The loop itself, running [collect_single_symbol] on each window;
    [INTERVAL_MS[interval]] is read inside the body. *)
Fixpoint fill_loop (symbol interval : string) (end_time : Z) (fuel : nat) (k : nat)
    (current_time total_collected : Z) : M Z :=
  match fuel with
  | O => ret total_collected
  | S f =>
      if Z.ltb current_time end_time && negb (stop k) then
        ms <- lift (interval_ms interval);;
        let batch_end := Z.min (current_time + 1000 * ms) end_time in
        res <- collect_single_symbol env symbol interval (Some current_time) (Some batch_end) 1000;;
        fill_loop symbol interval end_time f (S k) batch_end (total_collected + fst res)
      else ret total_collected
  end.

(** Each pass but the last advances [current_time] by
    [1000 * INTERVAL_MS[interval]], at least 1000 ms, so
    [(end_time - start_time) / 1000 + 2] passes are enough for the loop to exit. *)
Definition fill_fuel (start_time end_time : Z) : nat :=
  S (Z.to_nat ((end_time - start_time) / 1000 + 1)).

(** [start_time = int((datetime.now() - timedelta(days=days_back)).timestamp() * 1000)] *)
Definition fill_start (days_back : Z) : Z :=
  naive_timestamp_ms env (now_local_ms env - days_back * DAY_MS).

(** [end_time = int(time.time() * 1000)], then the loop from [fill_start days_back]. *)
Definition fill_missing_data (symbol interval : string) (days_back : Z) : M Z :=
  let end_time := env_now env in
  let start_time := fill_start days_back in
  fill_loop symbol interval end_time (fill_fuel start_time end_time) 0 start_time 0.

End GapFill.

(** ** [BinanceAPI._make_request]: the retry loop *)

(** How one [session.get(...)] / [raise_for_status()] / [response.json()]
    attempt ends. Every failure here is a [requests.exceptions.RequestException]
    ([Timeout], [ConnectionError], [HTTPError] for a status >= 400). *)
Inductive FailKind :=
| Timeout
| ConnectionError
| HttpStatus (code : Z).

Inductive Attempt :=
| AOk (body : string)
| AFail (kind : FailKind) (text : string).

(** What [_make_request] does: return the JSON, fall off the end of the
    function ([None], when [max_retries <= 0]) or re-raise the last error. *)
Inductive ReqResult :=
| RJson (body : string)
| RNone
| RRaise (text : string).

(** [for attempt in range(max_retries)]: [outcome attempt] is how attempt
    [attempt] ends; the list collects the [time.sleep] delays. *)
Fixpoint make_request_loop (remaining attempt : nat) (max_retries retry_delay : Z)
    (outcome : nat -> Attempt) : ReqResult * list Z :=
  match remaining with
  | O => (RNone, [])
  | S r =>
      match outcome attempt with
      | AOk body => (RJson body, [])
      | AFail _ text =>
          if Z.ltb (Z.of_nat attempt) (max_retries - 1) then
            let '(res, sleeps) := make_request_loop r (S attempt) max_retries retry_delay outcome in
            (res, retry_delay * (Z.of_nat attempt + 1) :: sleeps)
          else (RRaise text, [])
      end
  end.

Definition make_request (max_retries retry_delay : Z) (outcome : nat -> Attempt)
    : ReqResult * list Z :=
  make_request_loop (Z.to_nat max_retries) 0 max_retries retry_delay outcome.

(** ** Continuous mode: the task queue fed by [_schedule_collection] *)

(** The [Queue] of [(symbol, interval)] tasks, the tasks workers have taken
    and not finished, and the stop event. *)
Record Sched := mkSched {
  sq_queue : list (string * string);
  sq_inflight : list (string * string);
  sq_stop : bool
}.

(** [_schedule_collection]: one [task_queue.put((symbol, interval))] per
    active token, leaving the loop when the stop event is set. *)
Fixpoint schedule_tokens (tokens : list string) (interval : string) (s : Sched) : Sched :=
  match tokens with
  | [] => s
  | t :: ts =>
      if sq_stop s then s
      else schedule_tokens ts interval
             (mkSched (sq_queue s ++ [(t, interval)]) (sq_inflight s) (sq_stop s))
  end.

Definition _schedule_collection (tokens : list string) (interval : string) (s : Sched) : Sched :=
  schedule_tokens tokens interval s.

Definition remove_one (j : string * string) (l : list (string * string)) : list (string * string) :=
  match list_find (fun x => x = j) l with
  | Some (i, _) => delete i l
  | None => l
  end.

(** The moves of continuous mode: a scheduling tick (with the active tokens
    read from the database), a worker taking the head of the queue, a
    worker finishing a task ([task_done()]). *)
Inductive sched_step : Sched -> Sched -> Prop :=
| StepTick tokens interval s :
    sched_step s (_schedule_collection tokens interval s)
| StepTake j q fl st :
    sched_step (mkSched (j :: q) fl st) (mkSched q (fl ++ [j]) st)
| StepFinish j s :
    j ∈ sq_inflight s ->
    sched_step s (mkSched (sq_queue s) (remove_one j (sq_inflight s)) (sq_stop s)).

Definition sched_init : Sched := mkSched [] [] false.

Inductive sched_reachable : Sched -> Prop :=
| ReachInit : sched_reachable sched_init
| ReachStep s s' : sched_reachable s -> sched_step s s' -> sched_reachable s'.

(** Jobs of one pair that are pending or in flight. *)
Definition open_jobs (j : string * string) (s : Sched) : nat :=
  length (List.filter (fun x => bool_decide (x = j)) (sq_queue s ++ sq_inflight s)).

(** ** [_get_schedule_interval]: polling cadence in minutes *)

Definition INTERVALS : list string :=
  ["1m"; "3m"; "5m"; "15m"; "30m"; "1h"; "2h"; "4h"; "6h"; "8h"; "12h"; "1d"; "3d"; "1w"; "1M"].

Definition in_list (x : string) (l : list string) : bool := existsb (String.eqb x) l.

Definition _get_schedule_interval (interval : string) : Z :=
  if in_list interval ["1m"; "3m"; "5m"] then 5
  else if in_list interval ["15m"; "30m"] then 15
  else if in_list interval ["1h"; "2h"] then 60
  else 240.

(** ** [src/technical_indicators.py]: the indicator functions *)

(** The arithmetic the indicators use on list elements: Python floats, or
    Python ints mixed in where the code writes literals ([0], [50], [100])
    and integer periods. [n_eqb] is [==], [n_ltb] is [<], [n_of_Z] the
    conversion Python applies when an [int] meets a [float]. *)
Class PyNum (R : Type) := {
  n_zero : R;
  n_add : R -> R -> R;
  n_sub : R -> R -> R;
  n_mul : R -> R -> R;
  n_div : R -> R -> R;
  n_eqb : R -> R -> bool;
  n_ltb : R -> R -> bool;
  n_abs : R -> R;
  n_of_Z : Z -> R
}.

Definition ebind {A B} (m : Exc A) (k : A -> Exc B) : Exc B :=
  match m with
  | Ok a => k a
  | Raise e => Raise e
  end.

Notation "x <-? m ;; k" := (ebind m (fun x => k))
  (at level 64, m at next level, right associativity).

(** Python list primitives. *)

(** [range(a, b)] *)
Definition py_range (a b : Z) : list Z :=
  map (fun k => a + Z.of_nat k) (seq 0 (Z.to_nat (b - a))).

(** [[None] * k]: empty when [k <= 0]. *)
Definition py_nones {A} (k : Z) : list (option A) := repeat None (Z.to_nat k).

Definition py_len {A} (l : list A) : Z := Z.of_nat (length l).

(** A slice bound: a negative one counts from the end; both are clamped. *)
Definition py_bound (n i : Z) : Z :=
  if Z.ltb i 0 then Z.max 0 (i + n) else Z.min i n.

(** [l[start:stop]] *)
Definition py_slice {A} (l : list A) (start stop : Z) : list A :=
  let s := py_bound (py_len l) start in
  let e := py_bound (py_len l) stop in
  firstn (Z.to_nat (e - s)) (skipn (Z.to_nat s) l).

(** [l[i]] *)
Definition py_index {A} (l : list A) (i : Z) : Exc A :=
  let j := if Z.ltb i 0 then i + py_len l else i in
  if Z.ltb j 0 || Z.leb (py_len l) j then Raise "IndexError: list index out of range"
  else match nth_error l (Z.to_nat j) with
       | Some x => Ok x
       | None => Raise "IndexError: list index out of range"
       end.

(** [[x for x in l if x is not None]] *)
Fixpoint somes {A} (l : list (option A)) : list A :=
  match l with
  | [] => []
  | Some x :: r => x :: somes r
  | None :: r => somes r
  end.

(** [len([x for x in l if x is None])] *)
Definition none_count {A} (l : list (option A)) : Z :=
  py_len (List.filter (fun o => match o with None => true | Some _ => false end) l).

(** A loop whose body appends one value per index and may raise. *)
Fixpoint exc_map {A B} (f : A -> Exc B) (l : list A) : Exc (list B) :=
  match l with
  | [] => Ok []
  | x :: r => y <-? f x ;; ys <-? exc_map f r ;; Ok (y :: ys)
  end.

Section Indicators.
Context {R : Type} `{PyNum R}.

(** [sum(l)]: starts from the integer [0]. *)
Definition py_sum (l : list R) : R := fold_left n_add l (n_of_Z 0).

(** [x / period] with an integer divisor: [ZeroDivisionError] on [0]. *)
Definition div_int (x : R) (period : Z) : Exc R :=
  if Z.eqb period 0 then Raise "ZeroDivisionError: division by zero"
  else Ok (n_div x (n_of_Z period)).

(** [max(l)] and [min(l)]: [ValueError] on an empty sequence; an item
    replaces the running one when it is strictly larger (smaller). *)
Definition py_max (l : list R) : Exc R :=
  match l with
  | [] => Raise "ValueError: max() arg is an empty sequence"
  | x :: r => Ok (fold_left (fun acc y => if n_ltb acc y then y else acc) r x)
  end.

Definition py_min (l : list R) : Exc R :=
  match l with
  | [] => Raise "ValueError: min() arg is an empty sequence"
  | x :: r => Ok (fold_left (fun acc y => if n_ltb y acc then y else acc) r x)
  end.

(** [sma] *)
Definition sma_point (prices : list R) (period i : Z) : Exc (option R) :=
  if Z.ltb i (period - 1) then Ok None
  else x <-? div_int (py_sum (py_slice prices (i - period + 1) (i + 1))) period ;;
       Ok (Some x).

Definition sma (prices : list R) (period : Z) : Exc (list (option R)) :=
  if Z.ltb (py_len prices) period then Ok (py_nones (py_len prices))
  else exc_map (sma_point prices period) (py_range 0 (py_len prices)).

(** [ema]: the loop appends [alpha * prices[i] + (1 - alpha) * ema_values[-1]]. *)
Fixpoint ema_loop (prices : list R) (alpha : R) (idx : list Z)
    (ema_values : list (option R)) : Exc (list (option R)) :=
  match idx with
  | [] => Ok ema_values
  | i :: rest =>
      p <-? py_index prices i ;;
      last <-? py_index ema_values (-1) ;;
      match last with
      | None => Raise "TypeError: unsupported operand type(s) for *: 'float' and 'NoneType'"
      | Some l =>
          ema_loop prices alpha rest
            (ema_values ++ [Some (n_add (n_mul alpha p) (n_mul (n_sub (n_of_Z 1) alpha) l))])
      end
  end.

Definition ema (prices : list R) (period : Z) : Exc (list (option R)) :=
  if Z.ltb (py_len prices) period then Ok (py_nones (py_len prices))
  else alpha <-? div_int (n_of_Z 2) (period + 1) ;;
       first <-? div_int (py_sum (py_slice prices 0 period)) period ;;
       ema_loop prices alpha (py_range period (py_len prices))
         (py_nones (period - 1) ++ [Some first]).

(** [rsi] *)
Definition deltas (prices : list R) : list R :=
  map (fun '(a, b) => n_sub b a) (combine prices (tl prices)).

(** [max(delta, 0)] and [abs(min(delta, 0))] *)
Definition gain (d : R) : R := if n_ltb d n_zero then n_of_Z 0 else d.
Definition loss (d : R) : R := n_abs (if n_ltb n_zero d then n_of_Z 0 else d).

Definition rsi_point (avg_gain avg_loss : R) : R :=
  if n_eqb avg_loss n_zero then n_of_Z 100
  else let rs := n_div avg_gain avg_loss in
       n_sub (n_of_Z 100) (n_div (n_of_Z 100) (n_add (n_of_Z 1) rs)).

Fixpoint rsi_loop (gains losses : list R) (period : Z) (idx : list Z)
    (avg_gain avg_loss : R) : Exc (list (option R)) :=
  match idx with
  | [] => Ok []
  | i :: rest =>
      g <-? py_index gains i ;;
      ag <-? div_int (n_add (n_mul avg_gain (n_of_Z (period - 1))) g) period ;;
      l <-? py_index losses i ;;
      al <-? div_int (n_add (n_mul avg_loss (n_of_Z (period - 1))) l) period ;;
      vs <-? rsi_loop gains losses period rest ag al ;;
      Ok (Some (rsi_point ag al) :: vs)
  end.

Definition rsi (prices : list R) (period : Z) : Exc (list (option R)) :=
  if Z.ltb (py_len prices) (period + 1) then Ok (py_nones (py_len prices))
  else
    let ds := deltas prices in
    let gains := map gain ds in
    let losses := map loss ds in
    avg_gain <-? div_int (py_sum (py_slice gains 0 period)) period ;;
    avg_loss <-? div_int (py_sum (py_slice losses 0 period)) period ;;
    vs <-? rsi_loop gains losses period (py_range period (py_len ds)) avg_gain avg_loss ;;
    Ok (py_nones period ++ [Some (rsi_point avg_gain avg_loss)] ++ vs).

(** [macd]: the [or] tests short-circuit, so the second list is indexed
    only when the first one holds a value. *)
Definition diff_at (a b : list (option R)) (i : Z) : Exc (option R) :=
  x <-? py_index a i ;;
  match x with
  | None => Ok None
  | Some x =>
      y <-? py_index b i ;;
      match y with
      | None => Ok None
      | Some y => Ok (Some (n_sub x y))
      end
  end.

Definition macd (prices : list R) (fast slow signal : Z)
    : Exc (list (option R) * list (option R) * list (option R)) :=
  ema_fast <-? ema prices fast ;;
  ema_slow <-? ema prices slow ;;
  macd_line <-? exc_map (diff_at ema_fast ema_slow) (py_range 0 (py_len prices)) ;;
  signal_line <-? ema (somes macd_line) signal ;;
  let signal_line := py_nones (none_count macd_line) ++ signal_line in
  histogram <-? exc_map (diff_at macd_line signal_line) (py_range 0 (py_len macd_line)) ;;
  Ok (macd_line, signal_line, histogram).

(** [stochastic] *)
Definition k_point (highs lows closes : list R) (k_period i : Z) : Exc (option R) :=
  if Z.ltb i (k_period - 1) then Ok None
  else
    highest_high <-? py_max (py_slice highs (i - k_period + 1) (i + 1)) ;;
    lowest_low <-? py_min (py_slice lows (i - k_period + 1) (i + 1)) ;;
    if n_eqb highest_high lowest_low then Ok (Some (n_of_Z 50))
    else c <-? py_index closes i ;;
         Ok (Some (n_mul (n_div (n_sub c lowest_low) (n_sub highest_high lowest_low))
                         (n_of_Z 100))).

Definition stochastic (highs lows closes : list R) (k_period d_period : Z)
    : Exc (list (option R) * list (option R)) :=
  if negb (Z.eqb (py_len highs) (py_len lows)) || negb (Z.eqb (py_len lows) (py_len closes))
  then Raise "ValueError: Arrays devem ter o mesmo tamanho"
  else
    k_values <-? exc_map (k_point highs lows closes k_period) (py_range 0 (py_len closes)) ;;
    d_values <-? sma (somes k_values) d_period ;;
    Ok (k_values, py_nones (none_count k_values) ++ d_values).

End Indicators.

(** Python floats as IEEE binary64; [float(z)] for the small integers the
    indicators use (exact below [2^53]). *)
Fixpoint float_of_pos (p : positive) : PrimFloat.float :=
  match p with
  | xH => PrimFloat.one
  | xO q => PrimFloat.mul PrimFloat.two (float_of_pos q)
  | xI q => PrimFloat.add (PrimFloat.mul PrimFloat.two (float_of_pos q)) PrimFloat.one
  end.

Definition float_of_Z (z : Z) : PrimFloat.float :=
  match z with
  | Z0 => PrimFloat.zero
  | Zpos p => float_of_pos p
  | Zneg p => PrimFloat.opp (float_of_pos p)
  end.

#[global] Instance PyFloat : PyNum PrimFloat.float := {
  n_zero := PrimFloat.zero;
  n_add := PrimFloat.add;
  n_sub := PrimFloat.sub;
  n_mul := PrimFloat.mul;
  n_div := PrimFloat.div;
  n_eqb := PrimFloat.eqb;
  n_ltb := PrimFloat.ltb;
  n_abs := PrimFloat.abs;
  n_of_Z := float_of_Z
}.

(** Positions at the head of an output of length [n] that lack the [need]
    values of history a point requires: all of them when the input is
    shorter than [need], the first [need - 1] otherwise. *)
Definition warmup (n : nat) (need : Z) : nat :=
  if Z.ltb (Z.of_nat n) need then n else Z.to_nat (need - 1).

(** [out] has [n] entries, [None] at the first [c] and nowhere else. *)
Definition none_prefix {A} (out : list (option A)) (n c : nat) : Prop :=
  length out = n /\
  forall i, (i < n)%nat -> (nth_error out i = Some None <-> (i < c)%nat).

(** ** [collect_all_tokens_single] and the cursor table *)

(** The key of the [candles] table. *)
Definition candle_key (r : CandleRow) : string * string * Z :=
  (c_symbol r, c_interval r, c_open_time r).

Definition keys_unique (tbl : list CandleRow) : Prop := NoDup (map candle_key tbl).

Section AllTokens.

Variable env : Env.
Variable stop : nat -> bool.

(** [CandleCollector.collect_all_tokens_single]: [tokens] holds the symbols
    of [get_active_tokens()], in its [ORDER BY symbol] order; [stop k] is
    what the k-th test of the stop event reads. The cursor read and the
    [INTERVAL_MS] lookup run outside [collect_single_symbol]'s [try]. *)
Fixpoint all_tokens_loop (interval : string) (limit : Z) (k : nat) (tokens : list string)
    (total_collected errors : Z) : M (Z * Z) :=
  match tokens with
  | [] => ret (total_collected, errors)
  | symbol :: rest =>
      if stop k then ret (total_collected, errors)
      else
        last_time <- get_last_collected_time env symbol interval;;
        start_time <- match truthy last_time with
                      | Some lt => ms <- lift (interval_ms interval);; ret (lt + ms)
                      | None => ret (thirty_days_back env)
                      end;;
        res <- collect_single_symbol env symbol interval (Some start_time) None limit;;
        all_tokens_loop interval limit (S k) rest (total_collected + fst res)
          (if String.eqb (snd res) "success" then errors else errors + 1)
  end.

Definition collect_all_tokens_single (tokens : list string) (interval : string) (limit : Z)
    : M (Z * Z) :=
  all_tokens_loop interval limit 0 tokens 0 0.

End AllTokens.

(** Successive [update_collection_control] calls on one pair. *)
Fixpoint run_updates (env : Env) (symbol interval : string)
    (us : list (Z * string * option string)) : M unit :=
  match us with
  | [] => ret tt
  | (t, st, e) :: rest =>
      update_collection_control env symbol interval t st e;;; run_updates env symbol interval rest
  end.

(** The number of ['error'] statuses at the end of a sequence. *)
Definition error_streak (sts : list string) : nat :=
  fold_left (fun n st => if String.eqb st "error" then S n else 0%nat) sts 0%nat.

Definition cursor_errors (o : option Cursor) : Z :=
  match o with Some c => error_count c | None => 0 end.

(** ** [IndicatorManager]: indicators of a symbol, their storage and the signals *)

(** [<=] on list elements, used by [get_signals]. *)
Class PyOrd (R : Type) := { n_leb : R -> R -> bool }.

#[global] Instance PyFloatOrd : PyOrd PrimFloat.float := { n_leb := PrimFloat.leb }.

(** A row of the candle query of [calculate_all_indicators], its prices as
    the floats the code converts them to. *)
Record Candle (R : Type) := mkCandle {
  cd_open_time : Z;
  cd_open : R;
  cd_high : R;
  cd_low : R;
  cd_close : R;
  cd_volume : R
}.
Arguments mkCandle {R}.
Arguments cd_open_time {R}. Arguments cd_open {R}. Arguments cd_high {R}.
Arguments cd_low {R}. Arguments cd_close {R}. Arguments cd_volume {R}.

(** The dictionary [calculate_all_indicators] builds. The [volume_sma_20] and
    [volume_ratio] keys are present or absent together, as are
    [resistance_20] and [support_20]. *)
Record Indicators (R : Type) := mkIndicators {
  ind_symbol : string;
  ind_interval : string;
  ind_timestamp : Z;
  ind_current_price : R;
  ind_sma_20 : option R;
  ind_sma_50 : option R;
  ind_ema_12 : option R;
  ind_ema_26 : option R;
  ind_rsi_14 : option R;
  ind_macd_line : option R;
  ind_macd_signal : option R;
  ind_macd_histogram : option R;
  ind_bb_upper : option R;
  ind_bb_middle : option R;
  ind_bb_lower : option R;
  ind_stoch_k : option R;
  ind_stoch_d : option R;
  ind_volume : option (R * R);
  ind_levels : option (R * R)
}.
Arguments mkIndicators {R}.
Arguments ind_symbol {R}. Arguments ind_interval {R}. Arguments ind_timestamp {R}.
Arguments ind_current_price {R}. Arguments ind_sma_20 {R}. Arguments ind_sma_50 {R}.
Arguments ind_ema_12 {R}. Arguments ind_ema_26 {R}. Arguments ind_rsi_14 {R}.
Arguments ind_macd_line {R}. Arguments ind_macd_signal {R}. Arguments ind_macd_histogram {R}.
Arguments ind_bb_upper {R}. Arguments ind_bb_middle {R}. Arguments ind_bb_lower {R}.
Arguments ind_stoch_k {R}. Arguments ind_stoch_d {R}. Arguments ind_volume {R}.
Arguments ind_levels {R}.

(** A row of the [technical_indicators] query of [get_signals]
    ([macd_histogram], [bb_middle] and [volume_ratio] are selected but not read). *)
Record IndicatorRecord (R : Type) := mkIndicatorRecord {
  ti_symbol : string;
  ti_current_price : R;
  ti_rsi_14 : option R;
  ti_macd_line : option R;
  ti_macd_signal : option R;
  ti_bb_upper : option R;
  ti_bb_lower : option R;
  ti_stoch_k : option R;
  ti_stoch_d : option R;
  ti_created_at : Z
}.
Arguments mkIndicatorRecord {R}.
Arguments ti_symbol {R}. Arguments ti_current_price {R}. Arguments ti_rsi_14 {R}.
Arguments ti_macd_line {R}. Arguments ti_macd_signal {R}. Arguments ti_bb_upper {R}.
Arguments ti_bb_lower {R}. Arguments ti_stoch_k {R}. Arguments ti_stoch_d {R}.
Arguments ti_created_at {R}.

(** One entry of [signal['signals']]; only the RSI entries carry a ['value']. *)
Record Signal (R : Type) := mkSignal {
  sg_type : string;
  sg_indicator : string;
  sg_value : option R;
  sg_reason : string
}.
Arguments mkSignal {R}.
Arguments sg_type {R}. Arguments sg_indicator {R}. Arguments sg_value {R}. Arguments sg_reason {R}.

Record SignalEntry (R : Type) := mkSignalEntry {
  se_symbol : string;
  se_price : R;
  se_timestamp : Z;
  se_signals : list (Signal R)
}.
Arguments mkSignalEntry {R}.
Arguments se_symbol {R}. Arguments se_price {R}. Arguments se_timestamp {R}. Arguments se_signals {R}.

Section Reports.
Context {R : Type} `{PyNum R}.

(** [np.std], numpy's population standard deviation, is not embedded. *)
Variable np_std : list R -> R.

(** [bollinger_bands] *)
Definition bollinger_point (prices : list R) (sma_values : list (option R)) (period : Z)
    (std_dev : R) (i : Z) : Exc (option R * option R) :=
  m <-? py_index sma_values i ;;
  match m with
  | None => Ok (None, None)
  | Some m =>
      let std := np_std (py_slice prices (i - period + 1) (i + 1)) in
      Ok (Some (n_add m (n_mul std_dev std)), Some (n_sub m (n_mul std_dev std)))
  end.

Definition bollinger_bands (prices : list R) (period : Z) (std_dev : R)
    : Exc (list (option R) * list (option R) * list (option R)) :=
  sma_values <-? sma prices period ;;
  bands <-? exc_map (bollinger_point prices sma_values period std_dev) (py_range 0 (py_len prices)) ;;
  Ok (map fst bands, sma_values, map snd bands).

(** [x / y] on floats. *)
Definition py_truediv (x y : R) : Exc R :=
  if n_eqb y n_zero then Raise "ZeroDivisionError: float division by zero" else Ok (n_div x y).

(** [l[-1]] of an indicator's output. *)
Definition last_of (out : Exc (list (option R))) : Exc (option R) :=
  l <-? out ;; py_index l (-1).

(** [TechnicalIndicators.calculate_all_indicators]: [candles] is what the
    [ORDER BY open_time DESC LIMIT %s] query returns, or the error it raises. *)
Definition calculate_all_indicators (candles : Exc (list (Candle R))) (symbol interval : string)
    : Exc (option (Indicators R)) :=
  rows <-? candles ;;
  match rows with
  | [] => Ok None
  | _ =>
    let candles := rev rows in
    let highs := map cd_high candles in
    let lows := map cd_low candles in
    let closes := map cd_close candles in
    let volumes := map cd_volume candles in
    let timestamps := map cd_open_time candles in
    timestamp <-? py_index timestamps (-1) ;;
    current_price <-? py_index closes (-1) ;;
    sma_20 <-? last_of (sma closes 20) ;;
    sma_50 <-? last_of (sma closes 50) ;;
    ema_12 <-? last_of (ema closes 12) ;;
    ema_26 <-? last_of (ema closes 26) ;;
    rsi_14 <-? last_of (rsi closes 14) ;;
    m <-? macd closes 12 26 9 ;;
    let '(macd_line, signal_line, histogram) := m in
    macd_l <-? py_index macd_line (-1) ;;
    macd_s <-? py_index signal_line (-1) ;;
    macd_h <-? py_index histogram (-1) ;;
    bb <-? bollinger_bands closes 20 (n_of_Z 2) ;;
    let '(bb_upper, bb_middle, bb_lower) := bb in
    bb_u <-? py_index bb_upper (-1) ;;
    bb_m <-? py_index bb_middle (-1) ;;
    bb_l <-? py_index bb_lower (-1) ;;
    st <-? stochastic highs lows closes 14 3 ;;
    let '(stoch_k, stoch_d) := st in
    st_k <-? py_index stoch_k (-1) ;;
    st_d <-? py_index stoch_d (-1) ;;
    volume <-? (if Z.leb 20 (py_len volumes) then
                  volume_sma_20 <-? div_int (py_sum (py_slice volumes (-20) (py_len volumes))) 20 ;;
                  v <-? py_index volumes (-1) ;;
                  volume_ratio <-? py_truediv v volume_sma_20 ;;
                  Ok (Some (volume_sma_20, volume_ratio))
                else Ok None) ;;
    levels <-? (if Z.leb 20 (py_len highs) then
                  resistance_20 <-? py_max (py_slice highs (-20) (py_len highs)) ;;
                  support_20 <-? py_min (py_slice lows (-20) (py_len lows)) ;;
                  Ok (Some (resistance_20, support_20))
                else Ok None) ;;
    Ok (Some (mkIndicators symbol interval timestamp current_price sma_20 sma_50 ema_12 ema_26
                rsi_14 macd_l macd_s macd_h bb_u bb_m bb_l st_k st_d volume levels))
  end.

(** [IndicatorManager.save_indicators]: [execute] is the
    [INSERT ... ON DUPLICATE KEY UPDATE] statement. *)
Definition save_indicators (execute : Indicators R -> Exc unit) (indicators : option (Indicators R))
    : Exc unit :=
  match indicators with
  | None => Ok tt
  | Some d => execute d
  end.

(** The [for token in tokens] loop of [calculate_for_all_tokens]; [query]
    is the candle query of each symbol, [execute] the insert. *)
Fixpoint calculate_loop (interval : string) (query : string -> Exc (list (Candle R)))
    (execute : Indicators R -> Exc unit) (tokens : list string)
    (total_processed errors : Z) : Z * Z :=
  match tokens with
  | [] => (total_processed, errors)
  | symbol :: rest =>
      match (indicators <-? calculate_all_indicators (query symbol) symbol interval ;;
             match indicators with
             | Some _ => _ <-? save_indicators execute indicators ;; Ok true
             | None => Ok false
             end) with
      | Ok true => calculate_loop interval query execute rest (total_processed + 1) errors
      | Ok false => calculate_loop interval query execute rest total_processed errors
      | Raise _ => calculate_loop interval query execute rest total_processed (errors + 1)
      end
  end.

(** [IndicatorManager.calculate_for_all_tokens]: [tokens] is the result of
    the [active_trading_tokens] query, read outside the [try]. *)
Definition calculate_for_all_tokens (tokens : Exc (list string)) (interval : string)
    (query : string -> Exc (list (Candle R))) (execute : Indicators R -> Exc unit) : Exc (Z * Z) :=
  ts <-? tokens ;;
  Ok (calculate_loop interval query execute ts 0 0).

End Reports.

Section Signals.
Context {R : Type} `{PyNum R} `{PyOrd R}.

(** Truthiness of a [DECIMAL] column: [None] and [0] are false. *)
Definition dec_truthy (o : option R) : option R :=
  match o with
  | Some x => if n_eqb x n_zero then None else Some x
  | None => None
  end.

Definition rsi_signals (ind : IndicatorRecord R) : list (Signal R) :=
  match dec_truthy (ti_rsi_14 ind) with
  | Some rsi =>
      if n_ltb rsi (n_of_Z 30) then [mkSignal "BUY" "RSI" (Some rsi) "Oversold"]
      else if n_ltb (n_of_Z 70) rsi then [mkSignal "SELL" "RSI" (Some rsi) "Overbought"]
      else []
  | None => []
  end.

Definition macd_signals (ind : IndicatorRecord R) : list (Signal R) :=
  match dec_truthy (ti_macd_line ind), dec_truthy (ti_macd_signal ind) with
  | Some macd_line, Some macd_signal =>
      if n_ltb macd_signal macd_line && n_ltb (n_of_Z 0) macd_line
      then [mkSignal "BUY" "MACD" None "Bullish crossover"]
      else if n_ltb macd_line macd_signal && n_ltb macd_line (n_of_Z 0)
      then [mkSignal "SELL" "MACD" None "Bearish crossover"]
      else []
  | _, _ => []
  end.

Definition bb_signals (ind : IndicatorRecord R) : list (Signal R) :=
  match dec_truthy (ti_bb_upper ind), dec_truthy (ti_bb_lower ind) with
  | Some bb_upper, Some bb_lower =>
      let price := ti_current_price ind in
      if n_leb price bb_lower then [mkSignal "BUY" "BB" None "Price at lower band"]
      else if n_leb bb_upper price then [mkSignal "SELL" "BB" None "Price at upper band"]
      else []
  | _, _ => []
  end.

Definition stoch_signals (ind : IndicatorRecord R) : list (Signal R) :=
  match dec_truthy (ti_stoch_k ind), dec_truthy (ti_stoch_d ind) with
  | Some stoch_k, Some stoch_d =>
      if n_ltb stoch_k (n_of_Z 20) && n_ltb stoch_d (n_of_Z 20)
      then [mkSignal "BUY" "STOCH" None "Oversold"]
      else if n_ltb (n_of_Z 80) stoch_k && n_ltb (n_of_Z 80) stoch_d
      then [mkSignal "SELL" "STOCH" None "Overbought"]
      else []
  | _, _ => []
  end.

(** The [signal] dictionary built for one row. *)
Definition signal_of (ind : IndicatorRecord R) : SignalEntry R :=
  mkSignalEntry (ti_symbol ind) (ti_current_price ind) (ti_created_at ind)
    (rsi_signals ind ++ macd_signals ind ++ bb_signals ind ++ stoch_signals ind).

(** [IndicatorManager.get_signals]: [indicators] is what the
    [ORDER BY ti.created_at DESC LIMIT 100] query returns. *)
Fixpoint get_signals (indicators : list (IndicatorRecord R)) : list (SignalEntry R) :=
  match indicators with
  | [] => []
  | ind :: rest =>
      let signal := signal_of ind in
      match se_signals signal with
      | [] => get_signals rest
      | _ :: _ => signal :: get_signals rest
      end
  end.

End Signals.

(** ** Properties of one collection run *)

Section CollectorFacts.

Variable env : Env.

Definition klines_request (symbol interval : string) (start_time : Z)
    (end_time : option Z) (limit : Z) : Request :=
  mkRequest symbol interval (truthy (Some start_time)) (truthy end_time) (Z.min limit 1000).

Definition add_call (w : World) (rq : Request) : World :=
  mkWorld (w_db w) (w_calls w ++ [rq]).

(** Resolving the window only reads the database. *)
Lemma resolve_start_world symbol interval start_time w :
  snd (resolve_start env symbol interval start_time w) = w.
Proof.
  destruct start_time as [s|]; [reflexivity|].
  unfold resolve_start, bind, get_last_collected_time, db_run.
  destruct (env_db_fail env OpReadControl); [reflexivity|].
  destruct w as [[c k l] calls]; simpl.
  destruct (truthy _); [|reflexivity].
  unfold lift, ret; simpl. destruct (interval_ms interval); reflexivity.
Qed.

(** The value the window resolution computes from the stored cursor. *)
Definition cursor_start (s : Store) (symbol interval : string) : Exc Z :=
  match truthy (match st_control s !! (symbol, interval) with
                | Some c => last_collected_time c
                | None => None
                end) with
  | Some lt => match interval_ms interval with Ok ms => Ok (lt + ms) | Raise e => Raise e end
  | None => Ok (thirty_days_back env)
  end.

Lemma resolve_start_none symbol interval w :
  env_db_fail env OpReadControl = None ->
  fst (resolve_start env symbol interval None w) = cursor_start (w_db w) symbol interval.
Proof.
  intros Hr. unfold resolve_start, bind, get_last_collected_time, db_run, cursor_start.
  rewrite Hr. destruct w as [[c k l] calls]; simpl.
  destruct (truthy _); [|reflexivity].
  unfold lift, ret; simpl. destruct (interval_ms interval); reflexivity.
Qed.

Lemma resolve_start_ok symbol interval start_time w st :
  fst (resolve_start env symbol interval start_time w) = Ok st ->
  resolve_start env symbol interval start_time w = (Ok st, w).
Proof.
  intros H. pose proof (resolve_start_world symbol interval start_time w) as Hw.
  destruct (resolve_start env symbol interval start_time w); simpl in *; subst; reflexivity.
Qed.

(** The success path of the [try] block, from the fetch to the return. *)
Lemma collect_body_success symbol interval st end_time limit w ks c cs :
  env_fetch env (klines_request symbol interval st end_time limit) = Ok ks ->
  ks <> [] ->
  filter_closed env symbol interval ks = c :: cs ->
  env_db_fail env OpInsertCandles = None ->
  env_db_fail env OpUpsertControl = None ->
  env_db_fail env OpLogCollection = None ->
  let s := w_db w in
  let '(t, n) := insert_ignore (st_candles s) (c :: cs) in
  collect_body env symbol interval st end_time limit w =
    (Ok (n, "success"),
     mkWorld
       (mkStore t
          (<[(symbol, interval) :=
              upsert_cursor (st_control s !! (symbol, interval))
                (fold_left Z.max (map c_open_time cs) (c_open_time c)) "active" None]>
             (st_control s))
          (st_logs s ++ [mkLogRow symbol interval "single" st (end_or_now env end_time)
                           n "success" None]))
       (w_calls w ++ [klines_request symbol interval st end_time limit])).
Proof.
  intros Hf Hne Hfl Hi Hu Hl. cbv zeta.
  destruct (insert_ignore (st_candles (w_db w)) (c :: cs)) as [t n] eqn:Hins.
  unfold collect_body, bind, get_klines. fold (klines_request symbol interval st end_time limit).
  rewrite Hf. destruct ks as [|k ks']; [congruence|].
  rewrite Hfl. unfold insert_candles, db_run. rewrite Hi. cbn -[insert_ignore].
  rewrite Hins. cbn -[insert_ignore]. unfold update_collection_control, db_run. rewrite Hu.
  cbn -[insert_ignore]. unfold log_collection, db_run. rewrite Hl. reflexivity.
Qed.

(** The [except] block, when its own statements succeed. *)
Lemma on_error_run symbol interval start_time end_time e w :
  env_db_fail env OpLogCollection = None ->
  env_db_fail env OpReadLastCandle = None ->
  env_db_fail env OpUpsertControl = None ->
  let s := w_db w in
  on_error env symbol interval start_time end_time e w =
    (Ok (0, e),
     mkWorld
       (mkStore (st_candles s)
          (<[(symbol, interval) :=
              upsert_cursor (st_control s !! (symbol, interval))
                (or0 (truthy (max_open_time (st_candles s) symbol interval))) "error" (Some e)]>
             (st_control s))
          (st_logs s ++ [mkLogRow symbol interval "single" (or0 (truthy start_time))
                           (end_or_now env end_time) 0 "error" (Some e)]))
       (w_calls w)).
Proof.
  intros Hl Hr Hu. unfold on_error, bind, log_collection, get_last_candle_time,
    update_collection_control, db_run, ret.
  rewrite Hl, Hr, Hu. reflexivity.
Qed.

(** Requests to the API are only made by [get_klines]. *)
Definition keeps_calls {A} (m : M A) : Prop :=
  forall w, w_calls (snd (m w)) = w_calls w.

Lemma keeps_calls_ret {A} (a : A) : keeps_calls (ret a).
Proof. intros w. reflexivity. Qed.

Lemma keeps_calls_db_run {A} op (f : Store -> A * Store) : keeps_calls (db_run env op f).
Proof.
  intros w. unfold db_run. destruct (env_db_fail env op); [reflexivity|].
  destruct (f (w_db w)); reflexivity.
Qed.

Lemma keeps_calls_bind {A B} (m : M A) (k : A -> M B) :
  keeps_calls m -> (forall a, keeps_calls (k a)) -> keeps_calls (bind m k).
Proof.
  intros Hm Hk w. unfold bind. specialize (Hm w).
  destruct (m w) as [[a|e] w'] eqn:E; simpl in *; [rewrite Hk|]; exact Hm.
Qed.

Lemma keeps_calls_lift {A} (r : Exc A) : keeps_calls (lift r).
Proof. intros w. destruct r; reflexivity. Qed.

Create HintDb calls.
#[local] Hint Resolve keeps_calls_ret keeps_calls_db_run keeps_calls_bind keeps_calls_lift : calls.

Lemma on_error_calls symbol interval start_time end_time e :
  keeps_calls (on_error env symbol interval start_time end_time e).
Proof.
  unfold on_error, log_collection, get_last_candle_time, update_collection_control.
  auto 10 with calls.
Qed.

Lemma resolve_start_calls symbol interval start_time :
  keeps_calls (resolve_start env symbol interval start_time).
Proof.
  unfold resolve_start, get_last_collected_time. destruct start_time.
  - auto with calls.
  - apply keeps_calls_bind; [auto with calls|]. intros a. destruct (truthy a); auto with calls.
Qed.

Lemma collect_body_calls symbol interval st end_time limit w :
  w_calls (snd (collect_body env symbol interval st end_time limit w)) =
  (w_calls w ++ [klines_request symbol interval st end_time limit])%list.
Proof.
  unfold collect_body, bind at 1, get_klines. fold (klines_request symbol interval st end_time limit).
  destruct (env_fetch env _) as [ks|e]; [|reflexivity].
  set (w1 := mkWorld _ _).
  assert (H : keeps_calls (match ks with
      | [] => ret (0, "success")
      | _ :: _ =>
          inserted <- insert_candles env (filter_closed env symbol interval ks);;
          match filter_closed env symbol interval ks with
          | [] => ret tt
          | c :: cs => update_collection_control env symbol interval
                         (fold_left Z.max (map c_open_time cs) (c_open_time c)) "active" None
          end;;;
          log_collection env symbol interval "single" st (end_or_now env end_time) inserted
            "success" None;;; ret (inserted, "success")
      end)).
  { destruct ks; [auto with calls|].
    apply keeps_calls_bind.
    - unfold insert_candles. destruct (filter_closed _ _ _ _); auto with calls.
    - intros n. apply keeps_calls_bind.
      + destruct (filter_closed _ _ _ _); unfold update_collection_control; auto with calls.
      + intros []. unfold log_collection. auto with calls. }
  apply H.
Qed.

Lemma insert_ignore_keeps tbl rows x :
  In x tbl -> In x (fst (insert_ignore tbl rows)).
Proof.
  revert tbl. induction rows as [|r rs IH]; intros tbl Hx; simpl; [exact Hx|].
  destruct (existsb (same_key r) tbl).
  - apply IH, Hx.
  - destruct (insert_ignore (tbl ++ [r]) rs) as [t n] eqn:E. simpl.
    specialize (IH (tbl ++ [r])). rewrite E in IH. apply IH, in_or_app. left; exact Hx.
Qed.

(** After [INSERT IGNORE], every row of the batch has its key in the table. *)
Lemma insert_ignore_stored tbl rows x :
  In x rows -> exists y, In y (fst (insert_ignore tbl rows)) /\ same_key x y = true.
Proof.
  revert tbl. induction rows as [|r rs IH]; intros tbl Hx; [destruct Hx|].
  destruct Hx as [<-|Hx].
  - simpl. destruct (existsb (same_key r) tbl) eqn:E.
    + apply existsb_exists in E as [y [Hy Hk]].
      exists y. split; [apply insert_ignore_keeps, Hy | exact Hk].
    + destruct (insert_ignore (tbl ++ [r]) rs) as [t n] eqn:E2. simpl.
      exists r. split.
      * pose proof (insert_ignore_keeps (tbl ++ [r]) rs r) as K. rewrite E2 in K.
        apply K, in_or_app. right; left; reflexivity.
      * unfold same_key. rewrite !String.eqb_refl, Z.eqb_refl. reflexivity.
  - simpl. destruct (existsb (same_key r) tbl); [apply IH, Hx|].
    destruct (insert_ignore (tbl ++ [r]) rs) as [t n] eqn:E2. simpl.
    specialize (IH (tbl ++ [r]) Hx). rewrite E2 in IH. exact IH.
Qed.

Lemma fold_max_ge (l : list Z) (m : Z) : m <= fold_left Z.max l m /\ forall x, In x l -> x <= fold_left Z.max l m.
Proof.
  revert m. induction l as [|a l IH]; intros m; simpl; [split; [lia | intros x []]|].
  destruct (IH (Z.max m a)) as [H1 H2]. split; [lia|].
  intros x [<-|Hx]; [lia | apply H2, Hx].
Qed.

Lemma fold_max_in (l : list Z) (m : Z) : fold_left Z.max l m = m \/ In (fold_left Z.max l m) l.
Proof.
  revert m. induction l as [|a l IH]; intros m; simpl; [left; reflexivity|].
  destruct (IH (Z.max m a)) as [H|H]; [|right; right; exact H].
  rewrite H. destruct (Z.max_spec m a) as [[_ ->]|[_ ->]]; [right; left; reflexivity | left; reflexivity].
Qed.

(** [max(c[2] for c in candles_data)] is the largest open time of the batch. *)
Lemma batch_max_spec (c : CandleRow) (cs : list CandleRow) :
  let m := fold_left Z.max (map c_open_time cs) (c_open_time c) in
  In m (map c_open_time (c :: cs)) /\ forall x, In x (c :: cs) -> c_open_time x <= m.
Proof.
  simpl. split.
  - destruct (fold_max_in (map c_open_time cs) (c_open_time c)) as [H|H]; [left; auto | right; exact H].
  - destruct (fold_max_ge (map c_open_time cs) (c_open_time c)) as [H1 H2].
    intros x [<-|Hx]; [exact H1 | apply H2, in_map, Hx].
Qed.

Lemma filter_closed_nil symbol interval : filter_closed env symbol interval [] = [].
Proof. reflexivity. Qed.

Lemma collect_body_fail symbol interval st end_time limit w e :
  (env_fetch env (klines_request symbol interval st end_time limit) = Raise e \/
   exists ks c cs, env_fetch env (klines_request symbol interval st end_time limit) = Ok ks /\
     filter_closed env symbol interval ks = c :: cs /\ env_db_fail env OpInsertCandles = Some e) ->
  collect_body env symbol interval st end_time limit w =
    (Raise e, add_call w (klines_request symbol interval st end_time limit)).
Proof.
  intros [Hf | (ks & c & cs & Hf & Hfl & Hi)];
    unfold collect_body, bind at 1, get_klines;
    fold (klines_request symbol interval st end_time limit); rewrite Hf; [reflexivity|].
  destruct ks as [|k ks']; [discriminate Hfl|].
  rewrite Hfl. unfold insert_candles, db_run, bind. rewrite Hi. reflexivity.
Qed.

Lemma collect_success_run symbol interval start_time end_time limit w st ks c cs :
  fst (resolve_start env symbol interval start_time w) = Ok st ->
  env_fetch env (klines_request symbol interval st end_time limit) = Ok ks ->
  filter_closed env symbol interval ks = c :: cs ->
  env_db_fail env OpInsertCandles = None ->
  env_db_fail env OpUpsertControl = None ->
  env_db_fail env OpLogCollection = None ->
  let s := w_db w in
  let '(t, n) := insert_ignore (st_candles s) (c :: cs) in
  collect_single_symbol env symbol interval start_time end_time limit w =
    (Ok (n, "success"),
     mkWorld
       (mkStore t
          (<[(symbol, interval) :=
              upsert_cursor (st_control s !! (symbol, interval))
                (fold_left Z.max (map c_open_time cs) (c_open_time c)) "active" None]>
             (st_control s))
          (st_logs s ++ [mkLogRow symbol interval "single" st (end_or_now env end_time)
                           n "success" None]))
       (w_calls w ++ [klines_request symbol interval st end_time limit])).
Proof.
  intros Hres Hf Hfl Hi Hu Hl.
  assert (Hne : ks <> []) by (intros ->; discriminate Hfl).
  pose proof (collect_body_success symbol interval st end_time limit w ks c cs Hf Hne Hfl Hi Hu Hl)
    as Hb.
  cbv zeta in *. destruct (insert_ignore (st_candles (w_db w)) (c :: cs)) as [t n].
  unfold collect_single_symbol. rewrite (resolve_start_ok _ _ _ _ _ Hres).
  unfold try_except. rewrite Hb. reflexivity.
Qed.

Lemma collect_empty_fetch_run symbol interval start_time end_time limit w st :
  fst (resolve_start env symbol interval start_time w) = Ok st ->
  env_fetch env (klines_request symbol interval st end_time limit) = Ok [] ->
  collect_single_symbol env symbol interval start_time end_time limit w =
    (Ok (0, "success"), add_call w (klines_request symbol interval st end_time limit)).
Proof.
  intros Hres Hf. unfold collect_single_symbol. rewrite (resolve_start_ok _ _ _ _ _ Hres).
  unfold try_except, collect_body, bind at 1, get_klines.
  fold (klines_request symbol interval st end_time limit). rewrite Hf. reflexivity.
Qed.

End CollectorFacts.

(** ** Properties of the gap-fill windows *)








Section WindowFacts.

Variable step : Z.
Hypothesis step_pos : 0 < step.






End WindowFacts.

(** A run with an explicit start sends exactly one klines request. *)
Lemma collect_explicit_calls env symbol interval st end_time limit w :
  w_calls (snd (collect_single_symbol env symbol interval (Some st) end_time limit w)) =
    w_calls w ++ [klines_request symbol interval st end_time limit].
Proof.
  unfold collect_single_symbol, resolve_start, ret, try_except.
  pose proof (collect_body_calls env symbol interval st end_time limit w) as Hc.
  destruct (collect_body env symbol interval st end_time limit w) as [[a|e] w2]; simpl in *.
  - exact Hc.
  - rewrite on_error_calls. exact Hc.
Qed.

Definition window_request (symbol interval : string) (win : Z * Z) : Request :=
  klines_request symbol interval (fst win) (Some (snd win)) 1000.

(** An exception escapes [collect_single_symbol] only from its [except]
    block: with an explicit start and working bookkeeping statements, the
    run returns normally. *)
Lemma collect_explicit_returns env symbol interval st end_time limit w :
  env_db_fail env OpLogCollection = None ->
  env_db_fail env OpReadLastCandle = None ->
  env_db_fail env OpUpsertControl = None ->
  exists res, fst (collect_single_symbol env symbol interval (Some st) end_time limit w) = Ok res.
Proof.
  intros Hl Hr Hu. unfold collect_single_symbol, resolve_start, ret, try_except.
  destruct (collect_body env symbol interval st end_time limit w) as [[a|e] w2].
  - exists a. reflexivity.
  - rewrite (on_error_run env _ _ _ _ _ _ Hl Hr Hu). eexists. reflexivity.
Qed.


(** ** The start of a gap fill *)






(** ** Properties of the retry loop *)

Definition is_fail (a : Attempt) : Prop :=
  match a with AFail _ _ => True | AOk _ => False end.

Definition fail_text (a : Attempt) : string :=
  match a with AFail _ t => t | AOk _ => "" end.

(** The sleeps after the first [n] failed attempts. *)
Definition backoff_delays (retry_delay : Z) (n : nat) : list Z :=
  map (fun i => retry_delay * (Z.of_nat i + 1)) (seq 0 n).

Section RetryFacts.

Variables (max_retries retry_delay : Z) (outcome : nat -> Attempt).
Hypothesis max_pos : 1 <= max_retries.

Let delays_from (a n : nat) : list Z :=
  map (fun i => retry_delay * (Z.of_nat i + 1)) (seq a n).

Lemma make_request_loop_exhausted r a :
  (a + r = Z.to_nat max_retries)%nat -> (1 <= r)%nat ->
  (forall i, (a <= i < a + r)%nat -> is_fail (outcome i)) ->
  make_request_loop r a max_retries retry_delay outcome =
    (RRaise (fail_text (outcome (a + r - 1)%nat)), delays_from a (r - 1)).
Proof.
  revert a. induction r as [|r IH]; intros a Hn Hr Hf; [lia|].
  simpl. specialize (Hf a ltac:(lia)) as Ha.
  destruct (outcome a) as [body|kind text] eqn:Eo; [destruct Ha|].
  destruct (Z.ltb_spec (Z.of_nat a) (max_retries - 1)) as [Hlt|Hge].
  - rewrite (IH (S a)) by (intros; try apply Hf; lia).
    replace (S a + r - 1)%nat with (a + S r - 1)%nat by lia.
    unfold delays_from. destruct r as [|r']; [lia|].
    replace (S r' - 1)%nat with r' by lia. simpl. reflexivity.
  - assert (r = 0%nat) by lia. subst r.
    replace (a + 1 - 1)%nat with a by lia. rewrite Eo. reflexivity.
Qed.

Lemma make_request_loop_success r a n body :
  (a + r = Z.to_nat max_retries)%nat -> (a <= n < a + r)%nat ->
  (forall i, (a <= i < n)%nat -> is_fail (outcome i)) -> outcome n = AOk body ->
  make_request_loop r a max_retries retry_delay outcome = (RJson body, delays_from a (n - a)).
Proof.
  revert a. induction r as [|r IH]; intros a Hn Hr Hf Ho; [lia|].
  simpl. destruct (Nat.eq_dec n a) as [->|Hna].
  - rewrite Ho. replace (a - a)%nat with 0%nat by lia. reflexivity.
  - specialize (Hf a ltac:(lia)) as Ha.
    destruct (outcome a) as [b|kind text] eqn:Eo; [destruct Ha|].
    destruct (Z.ltb_spec (Z.of_nat a) (max_retries - 1)) as [Hlt|Hge]; [|lia].
    rewrite (IH (S a)) by (intros; first [exact Ho | apply Hf; lia | lia]).
    unfold delays_from. replace (n - a)%nat with (S (n - S a)) by lia. reflexivity.
Qed.

End RetryFacts.

(** ** Properties of the task queue *)

Lemma schedule_tokens_run tokens interval s :
  sq_stop s = false ->
  schedule_tokens tokens interval s =
    mkSched (sq_queue s ++ map (fun t => (t, interval)) tokens) (sq_inflight s) false.
Proof.
  revert s. induction tokens as [|t ts IH]; intros s Hs; simpl.
  - rewrite app_nil_r. destruct s; simpl in *; subst; reflexivity.
  - rewrite Hs, IH by reflexivity. simpl. rewrite <- app_assoc. reflexivity.
Qed.

Lemma filter_pair_map (t interval : string) (tokens : list string) :
  length (List.filter (fun x => bool_decide (x = (t, interval))) (map (fun u => (u, interval)) tokens)) =
  length (List.filter (fun u => bool_decide (u = t)) tokens).
Proof.
  induction tokens as [|u us IH]; [reflexivity|]. cbn [map List.filter].
  destruct (decide (u = t)) as [->|Hne].
  - rewrite !bool_decide_true by reflexivity. cbn [length]. rewrite IH. reflexivity.
  - rewrite !bool_decide_false by congruence. exact IH.
Qed.

(** ** Indicator facts *)

Lemma py_range_nil a b : b <= a -> py_range a b = [].
Proof. intros. unfold py_range. replace (Z.to_nat (b - a)) with 0%nat by lia. reflexivity. Qed.

Lemma py_range_cons a b : a < b -> py_range a b = a :: py_range (a + 1) b.
Proof.
  intros Hab. unfold py_range.
  replace (Z.to_nat (b - a)) with (S (Z.to_nat (b - (a + 1)))) by lia.
  cbn [seq map]. f_equal; [lia|].
  rewrite <- seq_shift, map_map. apply map_ext. intros; lia.
Qed.

Lemma py_range_length a b : length (py_range a b) = Z.to_nat (b - a).
Proof. unfold py_range. rewrite length_map, length_seq. reflexivity. Qed.

Lemma in_py_range x a b : In x (py_range a b) <-> a <= x < b.
Proof.
  unfold py_range. rewrite in_map_iff. split.
  - intros (k & <- & Hk). apply in_seq in Hk. lia.
  - intros Hx. exists (Z.to_nat (x - a)). split; [lia|]. apply in_seq. lia.
Qed.

Lemma py_range_split a c b : a <= c <= b -> py_range a b = py_range a c ++ py_range c b.
Proof.
  intros Hc. remember (Z.to_nat (c - a)) as k eqn:Hk. revert a Hc Hk.
  induction k as [|k IH]; intros a Hc Hk.
  - replace c with a by lia. rewrite (py_range_nil a a) by lia. reflexivity.
  - rewrite (py_range_cons a b), (py_range_cons a c) by lia. cbn.
    f_equal. apply IH; lia.
Qed.

Lemma exc_map_app {A B} (f : A -> Exc B) l1 l2 :
  exc_map f (l1 ++ l2) = (r1 <-? exc_map f l1 ;; r2 <-? exc_map f l2 ;; Ok (r1 ++ r2)).
Proof.
  induction l1 as [|x l1 IH]; cbn.
  - destruct (exc_map f l2); reflexivity.
  - destruct (f x); cbn; [|reflexivity]. rewrite IH.
    destruct (exc_map f l1); cbn; [|reflexivity].
    destruct (exc_map f l2); reflexivity.
Qed.

Lemma exc_map_nones {A B} (f : A -> Exc (option B)) l :
  (forall x, In x l -> f x = Ok None) -> exc_map f l = Ok (repeat None (length l)).
Proof.
  induction l as [|x l IH]; intros Hf; cbn; [reflexivity|].
  rewrite (Hf x) by (left; reflexivity). cbn.
  rewrite IH by (intros; apply Hf; right; assumption). reflexivity.
Qed.

Lemma exc_map_somes {A B} (f : A -> Exc (option B)) l :
  (forall x, In x l -> exists y, f x = Ok (Some y)) ->
  exists vs, exc_map f l = Ok (map Some vs) /\ length vs = length l.
Proof.
  induction l as [|x l IH]; intros Hf; cbn.
  - exists []. split; reflexivity.
  - destruct (Hf x) as [y Ey]; [left; reflexivity|]. rewrite Ey. cbn.
    destruct IH as (vs & E & L); [intros; apply Hf; right; assumption|].
    rewrite E. exists (y :: vs). cbn. split; [reflexivity | lia].
Qed.

(** A loop over [range(n)] whose body gives [None] below [c] and a value
    from [c] on. *)
Lemma exc_map_range_prefix {B} (f : Z -> Exc (option B)) c n :
  0 <= c <= n ->
  (forall i, 0 <= i < c -> f i = Ok None) ->
  (forall i, c <= i < n -> exists y, f i = Ok (Some y)) ->
  exists vs, exc_map f (py_range 0 n) = Ok (repeat None (Z.to_nat c) ++ map Some vs) /\
             length vs = Z.to_nat (n - c).
Proof.
  intros Hc Hn Hs.
  rewrite (py_range_split 0 c n) by lia. rewrite exc_map_app.
  rewrite exc_map_nones by (intros x Hx; apply in_py_range in Hx; apply Hn; lia).
  cbn [ebind].
  destruct (exc_map_somes f (py_range c n)) as (vs & E & L).
  { intros x Hx. apply in_py_range in Hx. apply Hs. lia. }
  rewrite E. cbn [ebind]. exists vs.
  rewrite py_range_length in *. split; [|lia].
  replace (c - 0) with c by lia. reflexivity.
Qed.

Lemma py_index_ok {A} (l : list A) i :
  0 <= i < py_len l -> exists x, py_index l i = Ok x /\ nth_error l (Z.to_nat i) = Some x.
Proof.
  intros Hi. unfold py_index. cbv zeta.
  destruct (Z.ltb_spec i 0); [lia|]. cbv iota.
  destruct (Z.ltb_spec i 0); [lia|].
  destruct (Z.leb_spec (py_len l) i); [lia|]. cbn.
  destruct (nth_error l (Z.to_nat i)) eqn:E.
  - eauto.
  - apply nth_error_None in E. unfold py_len in *. lia.
Qed.

Lemma py_index_last {A} (l : list A) y : py_index (l ++ [y]) (-1) = Ok y.
Proof.
  unfold py_index, py_len. cbv zeta. rewrite length_app. cbn [length].
  destruct (Z.ltb_spec (-1) 0); [|lia]. cbv iota.
  destruct (Z.ltb_spec (-1 + Z.of_nat (length l + 1)) 0); [lia|].
  destruct (Z.leb_spec (Z.of_nat (length l + 1)) (-1 + Z.of_nat (length l + 1))); [lia|].
  cbn. replace (Z.to_nat (-1 + Z.of_nat (length l + 1))) with (length l) by lia.
  rewrite nth_error_app2, Nat.sub_diag by lia. reflexivity.
Qed.

Lemma nth_error_shape {A} c (vs : list A) k :
  (k < c + length vs)%nat ->
  (nth_error (repeat None c ++ map Some vs) k = Some None <-> (k < c)%nat).
Proof.
  intros Hk. destruct (Nat.lt_ge_cases k c) as [Hlt|Hge].
  - rewrite nth_error_app1 by (rewrite repeat_length; lia).
    rewrite nth_error_repeat by lia. tauto.
  - rewrite nth_error_app2 by (rewrite repeat_length; lia).
    rewrite repeat_length, nth_error_map.
    destruct (nth_error vs (k - c)) eqn:E.
    + cbn. split; [discriminate | lia].
    + apply nth_error_None in E. lia.
Qed.

Lemma py_len_shape {A} c (vs : list A) :
  py_len (repeat None c ++ map Some vs) = Z.of_nat (c + length vs).
Proof. unfold py_len. rewrite length_app, repeat_length, length_map. reflexivity. Qed.

Lemma py_index_shape_none {A} c (vs : list A) i :
  0 <= i < Z.of_nat c -> py_index (repeat None c ++ map Some vs) i = Ok None.
Proof.
  intros Hi.
  destruct (py_index_ok (repeat None c ++ map Some vs) i) as (x & E & N).
  { rewrite py_len_shape. lia. }
  rewrite E. f_equal.
  assert (Hn : nth_error (repeat None c ++ map Some vs) (Z.to_nat i) = Some None)
    by (apply nth_error_shape; lia).
  congruence.
Qed.

Lemma py_index_shape_some {A} c (vs : list A) i :
  Z.of_nat c <= i < Z.of_nat (c + length vs) ->
  exists y, py_index (repeat None c ++ map Some vs) i = Ok (Some y).
Proof.
  intros Hi.
  destruct (py_index_ok (repeat None c ++ map Some vs) i) as (x & E & N).
  { rewrite py_len_shape. lia. }
  rewrite E. destruct x as [y|]; [eauto|].
  apply nth_error_shape in N; lia.
Qed.

Lemma somes_shape {A} c (vs : list A) : somes (repeat None c ++ map Some vs) = vs.
Proof.
  induction c as [|c IH]; cbn; [|exact IH].
  induction vs as [|v vs IHv]; cbn; congruence.
Qed.

Lemma none_count_shape {A} c (vs : list A) : none_count (repeat None c ++ map Some vs) = Z.of_nat c.
Proof.
  unfold none_count, py_len. f_equal.
  induction c as [|c IH]; cbn; [|f_equal; exact IH].
  induction vs as [|v vs IHv]; cbn; congruence.
Qed.

Lemma none_prefix_shape {A} c (vs : list A) n :
  (c + length vs = n)%nat -> none_prefix (repeat None c ++ map Some vs) n c.
Proof.
  intros Hn. split.
  - rewrite length_app, repeat_length, length_map. exact Hn.
  - intros i Hi. apply nth_error_shape. lia.
Qed.

Lemma warmup_le n need : (warmup n need <= n)%nat.
Proof. unfold warmup. destruct (Z.ltb_spec (Z.of_nat n) need); lia. Qed.

Lemma py_slice_nonempty {A} (l : list A) s e :
  0 <= s < e -> e <= py_len l -> py_slice l s e <> [].
Proof.
  intros Hs He. unfold py_slice, py_bound.
  destruct (Z.ltb_spec s 0); [lia|]. destruct (Z.ltb_spec e 0); [lia|].
  rewrite !Z.min_l by lia.
  intros Hnil. apply (f_equal (@length A)) in Hnil.
  rewrite length_firstn, length_skipn in Hnil. cbn in Hnil.
  unfold py_len in *. lia.
Qed.

Section IndicatorFacts.
Context {R : Type} `{PyNum R}.

Lemma py_max_ok (l : list R) : l <> [] -> exists y, py_max l = Ok y.
Proof. destruct l; [congruence|]. cbn. eauto. Qed.

Lemma py_min_ok (l : list R) : l <> [] -> exists y, py_min l = Ok y.
Proof. destruct l; [congruence|]. cbn. eauto. Qed.

Lemma sma_shape (prices : list R) period :
  1 <= period ->
  exists vs, sma prices period = Ok (repeat None (warmup (length prices) period) ++ map Some vs) /\
             (warmup (length prices) period + length vs = length prices)%nat.
Proof.
  intros Hp. unfold sma, warmup, py_len.
  destruct (Z.ltb_spec (Z.of_nat (length prices)) period).
  - exists []. unfold py_nones. rewrite Nat2Z.id, app_nil_r. split; [reflexivity | cbn; lia].
  - destruct (exc_map_range_prefix (sma_point prices period) (period - 1)
                (Z.of_nat (length prices))) as (vs & E & L).
    + lia.
    + intros i Hi. unfold sma_point. destruct (Z.ltb_spec i (period - 1)); [reflexivity | lia].
    + intros i Hi. unfold sma_point. destruct (Z.ltb_spec i (period - 1)); [lia|].
      unfold div_int. destruct (Z.eqb_spec period 0); [lia|]. cbn. eauto.
    + exists vs. split; [exact E | lia].
Qed.

Lemma ema_loop_shape (prices : list R) alpha idx :
  (forall i, In i idx -> 0 <= i < py_len prices) ->
  forall c vs x, exists vs',
    ema_loop prices alpha idx (repeat None c ++ map Some vs ++ [Some x]) =
      Ok (repeat None c ++ map Some vs') /\
    length vs' = (length vs + 1 + length idx)%nat.
Proof.
  induction idx as [|i idx IH]; intros Hin c vs x.
  - exists (vs ++ [x]). cbn. rewrite map_app, length_app. cbn. split; [reflexivity | lia].
  - cbn [ema_loop].
    destruct (py_index_ok prices i) as (p & Ep & _); [apply Hin; left; reflexivity|].
    rewrite Ep. cbn [ebind].
    rewrite app_assoc, py_index_last. cbn [ebind].
    match goal with
    | |- context [ema_loop prices alpha idx (_ ++ [Some ?y])] =>
        destruct (IH (fun j Hj => Hin j (or_intror Hj)) c (vs ++ [x]) y) as (vs' & E & L);
        replace ((repeat None c ++ map Some vs) ++ [Some x]) with
          (repeat None c ++ map Some (vs ++ [x])) by (rewrite map_app, app_assoc; reflexivity);
        rewrite <- app_assoc
    end.
    exists vs'. split; [exact E|]. rewrite L, length_app. cbn. lia.
Qed.

Lemma ema_shape (prices : list R) period :
  1 <= period ->
  exists vs, ema prices period = Ok (repeat None (warmup (length prices) period) ++ map Some vs) /\
             (warmup (length prices) period + length vs = length prices)%nat.
Proof.
  intros Hp. unfold ema, warmup. unfold py_len at 1 2.
  destruct (Z.ltb_spec (Z.of_nat (length prices)) period).
  - exists []. unfold py_nones, py_len. rewrite Nat2Z.id, app_nil_r. split; [reflexivity | cbn; lia].
  - unfold div_int. destruct (Z.eqb_spec (period + 1) 0); [lia|].
    destruct (Z.eqb_spec period 0); [lia|]. cbn [ebind]. unfold py_nones.
    destruct (ema_loop_shape prices (n_div (n_of_Z 2) (n_of_Z (period + 1)))
                (py_range period (py_len prices))) with (c := Z.to_nat (period - 1)) (vs := @nil R)
      (x := n_div (py_sum (py_slice prices 0 period)) (n_of_Z period)) as (vs' & E & L).
    { intros i Hi. apply in_py_range in Hi. unfold py_len in *. lia. }
    exists vs'. split; [exact E|].
    rewrite L, py_range_length. unfold py_len in *. cbn. lia.
Qed.

Lemma deltas_length (prices : list R) : length (deltas prices) = (length prices - 1)%nat.
Proof.
  unfold deltas. rewrite length_map, length_combine.
  destruct prices as [|p ps]; cbn [tl length]; [reflexivity|].
  rewrite Nat.min_r; lia.
Qed.

Lemma rsi_loop_shape (gains losses : list R) period idx :
  period <> 0 ->
  (forall i, In i idx -> 0 <= i < py_len gains /\ 0 <= i < py_len losses) ->
  forall avg_gain avg_loss, exists ws,
    rsi_loop gains losses period idx avg_gain avg_loss = Ok (map Some ws) /\
    length ws = length idx.
Proof.
  intros Hp. induction idx as [|i idx IH]; intros Hin ag al; cbn [rsi_loop].
  - exists []. split; reflexivity.
  - destruct (Hin i) as [Hg Hl]; [left; reflexivity|].
    destruct (py_index_ok gains i Hg) as (g & Eg & _).
    destruct (py_index_ok losses i Hl) as (l & El & _).
    rewrite Eg. cbn [ebind]. unfold div_int.
    destruct (Z.eqb_spec period 0); [contradiction|]. cbn [ebind].
    rewrite El. cbn [ebind].
    match goal with
    | |- context [rsi_loop gains losses period idx ?ag' ?al'] =>
        destruct (IH (fun j Hj => Hin j (or_intror Hj)) ag' al') as (ws & E & L);
        unfold div_int in E; rewrite E; cbn [ebind];
        exists (rsi_point ag' al' :: ws)
    end.
    split; [reflexivity | cbn; lia].
Qed.

Lemma rsi_shape (prices : list R) period :
  1 <= period ->
  exists vs, rsi prices period = Ok (repeat None (warmup (length prices) (period + 1)) ++ map Some vs) /\
             (warmup (length prices) (period + 1) + length vs = length prices)%nat.
Proof.
  intros Hp. unfold rsi, warmup. unfold py_len at 1 2.
  destruct (Z.ltb_spec (Z.of_nat (length prices)) (period + 1)).
  - exists []. unfold py_nones, py_len. rewrite Nat2Z.id, app_nil_r. split; [reflexivity | cbn; lia].
  - unfold div_int. destruct (Z.eqb_spec period 0); [lia|]. cbn [ebind].
    assert (Hin : forall i, In i (py_range period (py_len (deltas prices))) ->
                  0 <= i < py_len (map gain (deltas prices)) /\
                  0 <= i < py_len (map loss (deltas prices))).
    { intros i Hi. apply in_py_range in Hi. unfold py_len in *.
      rewrite !length_map. rewrite deltas_length in *. lia. }
    match goal with
    | |- context [rsi_loop ?g ?l period ?idx ?ag ?al] =>
        destruct (rsi_loop_shape g l period idx n Hin ag al) as (ws & E & L)
    end.
    unfold div_int in E. rewrite E. cbn [ebind].
    match goal with
    | |- context [Some (rsi_point ?ag ?al)] => exists (rsi_point ag al :: ws)
    end.
    replace (period + 1 - 1) with period by lia. split; [reflexivity|].
    cbn [length]. rewrite L, py_range_length. unfold py_len in *. rewrite deltas_length. lia.
Qed.

Lemma diff_at_none ca (va : list R) cb vb i :
  0 <= i < Z.of_nat (Nat.max ca cb) ->
  Z.of_nat (ca + length va) = Z.of_nat (cb + length vb) ->
  (Nat.max ca cb <= ca + length va)%nat ->
  diff_at (repeat None ca ++ map Some va) (repeat None cb ++ map Some vb) i = Ok None.
Proof.
  intros Hi Hn Hm. unfold diff_at.
  destruct (Z.ltb_spec i (Z.of_nat ca)).
  - rewrite py_index_shape_none by lia. reflexivity.
  - destruct (py_index_shape_some ca va i) as [x Ex]; [lia|]. rewrite Ex. cbn [ebind].
    rewrite py_index_shape_none by lia. reflexivity.
Qed.

Lemma diff_at_some ca (va : list R) cb vb i :
  Z.of_nat (Nat.max ca cb) <= i < Z.of_nat (ca + length va) ->
  Z.of_nat (ca + length va) = Z.of_nat (cb + length vb) ->
  exists y, diff_at (repeat None ca ++ map Some va) (repeat None cb ++ map Some vb) i = Ok (Some y).
Proof.
  intros Hi Hn. unfold diff_at.
  destruct (py_index_shape_some ca va i) as [x Ex]; [lia|]. rewrite Ex. cbn [ebind].
  destruct (py_index_shape_some cb vb i) as [y Ey]; [lia|]. rewrite Ey. cbn [ebind].
  eauto.
Qed.

Lemma macd_shape (prices : list R) fast slow signal :
  1 <= fast -> 1 <= slow -> 1 <= signal ->
  let n := length prices in
  let cm := Nat.max (warmup n fast) (warmup n slow) in
  let cs := (cm + warmup (n - cm) signal)%nat in
  exists vm vs vh,
    macd prices fast slow signal =
      Ok (repeat None cm ++ map Some vm, repeat None cs ++ map Some vs,
          repeat None cs ++ map Some vh) /\
    (cm + length vm = n)%nat /\ (cs + length vs = n)%nat /\ (cs + length vh = n)%nat.
Proof.
  intros Hf Hs Hg n cm cs.
  assert (Hcm : cm = Nat.max (warmup n fast) (warmup n slow)) by reflexivity.
  assert (Hcs : cs = (cm + warmup (n - cm) signal)%nat) by reflexivity.
  destruct (ema_shape prices fast Hf) as (vf & Ef & Lf).
  destruct (ema_shape prices slow Hs) as (vl & El & Ll).
  change (length prices) with n in Ef, El, Lf, Ll.
  unfold macd. rewrite Ef, El. cbn [ebind].
  pose proof (warmup_le n fast). pose proof (warmup_le n slow).
  destruct (exc_map_range_prefix
              (diff_at (repeat None (warmup n fast) ++ map Some vf)
                       (repeat None (warmup n slow) ++ map Some vl))
              (Z.of_nat cm) (py_len prices)) as (vm & Em & Lm).
  - unfold py_len. lia.
  - intros i Hi. apply diff_at_none; lia.
  - intros i Hi. apply diff_at_some; unfold py_len in *; lia.
  - rewrite Nat2Z.id in Em. rewrite Em. cbn [ebind].
    rewrite somes_shape.
    assert (Hvm : length vm = (n - cm)%nat) by (unfold py_len in Lm; lia).
    destruct (ema_shape vm signal Hg) as (vg & Eg & Lg).
    rewrite Eg. cbn [ebind]. rewrite none_count_shape. unfold py_nones. rewrite Nat2Z.id.
    rewrite Hvm in *.
    rewrite app_assoc, <- repeat_app.
    change (cm + warmup (n - cm) signal)%nat with cs.
    pose proof (warmup_le (n - cm) signal).
    destruct (exc_map_range_prefix
                (diff_at (repeat None cm ++ map Some vm) (repeat None cs ++ map Some vg))
                (Z.of_nat cs) (py_len (repeat None cm ++ map Some vm))) as (vh & Eh & Lh).
    + rewrite py_len_shape. lia.
    + intros i Hi.
      replace cs with (Nat.max cm cs) in Hi by lia.
      replace (repeat None cs ++ map Some vg) with (repeat None (Nat.max cm cs) ++ map Some vg)
        by (f_equal; f_equal; lia).
      apply diff_at_none; lia.
    + intros i Hi. rewrite py_len_shape in Hi.
      replace (repeat None cs ++ map Some vg) with (repeat None (Nat.max cm cs) ++ map Some vg)
        by (f_equal; f_equal; lia).
      apply diff_at_some; lia.
    + rewrite Nat2Z.id in Eh. rewrite Eh. cbn [ebind].
      exists vm, vg, vh. split; [reflexivity|].
      rewrite py_len_shape in Lh. lia.
Qed.

Lemma k_point_some (highs lows closes : list R) k_period i :
  1 <= k_period -> k_period - 1 <= i < py_len closes ->
  py_len highs = py_len closes -> py_len lows = py_len closes ->
  exists y, k_point highs lows closes k_period i = Ok (Some y).
Proof.
  intros Hk Hi Hh Hl. unfold k_point.
  destruct (Z.ltb_spec i (k_period - 1)); [lia|].
  destruct (py_max_ok (py_slice highs (i - k_period + 1) (i + 1))) as [hh Ehh].
  { apply py_slice_nonempty; lia. }
  destruct (py_min_ok (py_slice lows (i - k_period + 1) (i + 1))) as [ll Ell].
  { apply py_slice_nonempty; lia. }
  rewrite Ehh. cbn [ebind]. rewrite Ell. cbn [ebind].
  destruct (n_eqb hh ll); [eauto|].
  destruct (py_index_ok closes i) as (c & Ec & _); [lia|].
  rewrite Ec. cbn [ebind]. eauto.
Qed.

Lemma stochastic_shape (highs lows closes : list R) k_period d_period :
  1 <= k_period -> 1 <= d_period ->
  length highs = length closes -> length lows = length closes ->
  let n := length closes in
  let ck := warmup n k_period in
  let cd := (ck + warmup (n - ck) d_period)%nat in
  exists vk vd,
    stochastic highs lows closes k_period d_period =
      Ok (repeat None ck ++ map Some vk, repeat None cd ++ map Some vd) /\
    (ck + length vk = n)%nat /\ (cd + length vd = n)%nat.
Proof.
  intros Hk Hd Hh Hl n ck cd.
  assert (Hck : ck = warmup n k_period) by reflexivity.
  assert (Hcd : cd = (ck + warmup (n - ck) d_period)%nat) by reflexivity.
  unfold stochastic, py_len at 1 2 3 4. rewrite Hh, Hl, Z.eqb_refl. cbn [negb orb].
  pose proof (warmup_le n k_period).
  destruct (exc_map_range_prefix (k_point highs lows closes k_period) (Z.of_nat ck)
              (py_len closes)) as (vk & Ek & Lk).
  - unfold py_len. lia.
  - intros i Hi. unfold k_point. destruct (Z.ltb_spec i (k_period - 1)); [reflexivity|].
    exfalso. rewrite Hck in Hi. unfold warmup in Hi.
    destruct (Z.ltb_spec (Z.of_nat n) k_period); lia.
  - intros i Hi. apply k_point_some; unfold py_len in *; try lia.
    rewrite Hck in Hi. unfold warmup in Hi.
    destruct (Z.ltb_spec (Z.of_nat n) k_period); lia.
  - rewrite Nat2Z.id in Ek. rewrite Ek. cbn [ebind].
    rewrite somes_shape.
    assert (Hvk : length vk = (n - ck)%nat) by (unfold py_len in Lk; lia).
    destruct (sma_shape vk d_period Hd) as (vd & Ed & Ld).
    rewrite Ed. cbn [ebind]. rewrite none_count_shape. unfold py_nones. rewrite Nat2Z.id.
    rewrite Hvk in *. rewrite app_assoc, <- repeat_app.
    exists vk, vd. split; [reflexivity | lia].
Qed.

End IndicatorFacts.

(** ** Concrete runs *)

Module Fixtures.

Definition w_empty : World := mkWorld (mkStore [] ∅ []) [].

(** A 1h series at wall clock 7199999: the second candle closes exactly now. *)
Definition k_first : Kline := mkKline 0 3599999 [].
Definition k_second : Kline := mkKline 3600000 7199999 [].
Definition env_closing_now : Env :=
  mkEnv 7199999 (fun _ => 0) (fun _ => Ok [k_first; k_second]) (fun _ => None).

(** A failing fetch, against a cursor left behind the stored candles
    (as a gap-fill of an older window leaves it). *)
Definition env_fetch_fails : Env :=
  mkEnv 10800000 (fun _ => 0) (fun _ => Raise "timeout") (fun _ => None).
Definition w_cursor_behind : World :=
  mkWorld (mkStore [mkCandleRow "BTCUSDT" "1h" 7200000 10799999 []]
             {[("BTCUSDT", "1h") := mkCursor (Some 3600000) "active" 0 None]} []) [].

(** Two runs at wall clock 1700000000000: the first one's fetch fails. *)
Definition now_T : Z := 1700000000000.
Definition env_boot_fail : Env := mkEnv now_T (fun _ => 0) (fun _ => Raise "timeout") (fun _ => None).
Definition env_boot_ok : Env := mkEnv now_T (fun _ => 0) (fun _ => Ok []) (fun _ => None).
(** The cursor row such a failing first run leaves behind. *)
Definition w_zero_cursor : World :=
  mkWorld (mkStore [] {[("BTCUSDT", "1h") := mkCursor (Some 0) "error" 1 (Some "timeout")]} []) [].

(** A batch whose rows are all stored already. *)
Definition row_a : CandleRow := mkCandleRow "ETHUSDT" "1h" 3600000 7199999 [].
Definition w_dup : World := mkWorld (mkStore [row_a] ∅ []) [].
Definition env_dup : Env :=
  mkEnv 7200000 (fun _ => 0) (fun _ => Ok [mkKline 3600000 7199999 []]) (fun _ => None).


(** America/New_York around the 2024 fall-back change (2024-11-03 06:00
    UTC, epoch second 1730613600): EDT (-4 h) before, EST (-5 h) after. *)
Definition ny_fall_utcoffset (u : Z) : Z :=
  if Z.ltb u 1730613600 then -14400 else -18000.
(** Wall clock 2024-11-03 06:30 UTC: 01:30 EST, the second pass through 01:30. *)
Definition env_ny_fall : Env :=
  mkEnv 1730615400000 ny_fall_utcoffset (fun _ => Ok []) (fun _ => None).

End Fixtures.

(** * Claims about [collect_single_symbol] *)

Import Fixtures.

(** C1 (open-candle exclusion). The filter drops a row only when
    [close_time > now]: at wall clock 7199999 a 1h candle whose close_time
    is exactly 7199999 (still in its last millisecond) reaches
    [insert_candles] and is stored. *)
Lemma C1_candle_closing_now_is_stored :
  let '(r, w) := collect_single_symbol env_closing_now "BTCUSDT" "1h" None None 1000 w_empty in
  r = Ok (2, "success") /\
  In (mkCandleRow "BTCUSDT" "1h" 3600000 7199999 []) (st_candles (w_db w)) /\
  k_close_time k_second = env_now env_closing_now.
Proof. vm_compute. split; [reflexivity|]. split; [right; left; reflexivity | reflexivity]. Qed.

(** C2 (counterexample). A failing fetch does not leave the cursor as it
    was: the [except] block rewrites last_collected_time to the largest
    stored open_time, here moving it from 3600000 to 7200000. *)
Lemma C2_failure_moves_cursor :
  (last_collected_time <$> st_control (w_db w_cursor_behind) !! ("BTCUSDT", "1h"))
    = Some (Some 3600000) /\
  let '(r, w) := collect_single_symbol env_fetch_fails "BTCUSDT" "1h" None None 1000 w_cursor_behind in
  r = Ok (0, "timeout") /\
  (last_collected_time <$> st_control (w_db w) !! ("BTCUSDT", "1h")) = Some (Some 7200000).
Proof. vm_compute. repeat split; reflexivity. Qed.

(** C2 (as amended). When the fetch raises, or the bulk insert of a
    non-empty batch raises, and the bookkeeping statements of the [except]
    block succeed: the run returns [(0, error)] without raising, the
    candles are untouched, exactly one error row is appended to
    [collection_logs], and the cursor gets last_collected_time = the largest
    stored open_time of the pair (0 when there is none), status "error",
    error_count one more than before (1 for a new row), last_error = the
    error text; no other cursor changes. *)
Theorem C2_failure_bookkeeping (env : Env) symbol interval start_time end_time limit w st e :
  fst (resolve_start env symbol interval start_time w) = Ok st ->
  (env_fetch env (klines_request symbol interval st end_time limit) = Raise e \/
   exists ks c cs, env_fetch env (klines_request symbol interval st end_time limit) = Ok ks /\
     filter_closed env symbol interval ks = c :: cs /\ env_db_fail env OpInsertCandles = Some e) ->
  env_db_fail env OpLogCollection = None ->
  env_db_fail env OpReadLastCandle = None ->
  env_db_fail env OpUpsertControl = None ->
  let s := w_db w in
  let '(r, w') := collect_single_symbol env symbol interval start_time end_time limit w in
  r = Ok (0, e) /\
  st_candles (w_db w') = st_candles s /\
  (exists c, st_control (w_db w') !! (symbol, interval) = Some c /\
     last_collected_time c = Some (or0 (truthy (max_open_time (st_candles s) symbol interval))) /\
     status c = "error" /\
     error_count c = match st_control s !! (symbol, interval) with
                     | Some o => error_count o | None => 0 end + 1 /\
     last_error c = Some e) /\
  (forall k, k <> (symbol, interval) -> st_control (w_db w') !! k = st_control s !! k) /\
  st_logs (w_db w') =
    st_logs s ++ [mkLogRow symbol interval "single" st (end_or_now env end_time) 0 "error" (Some e)].
Proof.
  intros Hres Hfail Hl Hr Hu. cbv zeta.
  unfold collect_single_symbol. rewrite (resolve_start_ok env _ _ _ _ _ Hres).
  unfold try_except. rewrite (collect_body_fail env _ _ _ _ _ _ _ Hfail).
  assert (Hst : or0 (truthy (Some st)) = st).
  { unfold truthy. destruct (Z.eqb_spec st 0); simpl; lia. }
  rewrite (on_error_run env _ _ _ _ _ _ Hl Hr Hu), Hst. simpl.
  split; [reflexivity|]. split; [reflexivity|]. split; [|split].
  - eexists. rewrite lookup_insert_eq. split; [reflexivity|].
    destruct (st_control (w_db w) !! (symbol, interval)); simpl; repeat split; reflexivity.
  - intros k Hk. rewrite lookup_insert_ne; [reflexivity|congruence].
  - reflexivity.
Qed.

Lemma C2_failure_bookkeeping_witness :
  let '(r, w') := collect_single_symbol env_fetch_fails "BTCUSDT" "1h" None None 1000 w_cursor_behind in
  r = Ok (0, "timeout") /\
  st_candles (w_db w') = st_candles (w_db w_cursor_behind) /\
  (exists c, st_control (w_db w') !! ("BTCUSDT", "1h") = Some c /\
     last_collected_time c = Some (or0 (truthy (max_open_time (st_candles (w_db w_cursor_behind)) "BTCUSDT" "1h"))) /\
     status c = "error" /\
     error_count c = match st_control (w_db w_cursor_behind) !! ("BTCUSDT", "1h") with
                     | Some o => error_count o | None => 0 end + 1 /\
     last_error c = Some "timeout") /\
  (forall k, k <> ("BTCUSDT", "1h") -> st_control (w_db w') !! k = st_control (w_db w_cursor_behind) !! k) /\
  st_logs (w_db w') =
    st_logs (w_db w_cursor_behind) ++ [mkLogRow "BTCUSDT" "1h" "single" 7200000
      (end_or_now env_fetch_fails None) 0 "error" (Some "timeout")].
Proof.
  apply (C2_failure_bookkeeping env_fetch_fails "BTCUSDT" "1h" None None 1000 w_cursor_behind 7200000 "timeout").
  - vm_compute. reflexivity.
  - left. reflexivity.
  - reflexivity.
  - reflexivity.
  - reflexivity.
Defined.

(** C3 (counterexample). A cursor row whose last_collected_time is 0 is
    treated like a missing one. A first run whose fetch fails writes
    last_collected_time = 0 (no candle stored); the next run then requests
    [now - 30 days] instead of [0 + 3600000]. *)
Lemma C3_zero_cursor_restarts_backfill :
  let '(_, w1) := collect_single_symbol env_boot_fail "BTCUSDT" "1h" None None 1000 w_empty in
  (last_collected_time <$> st_control (w_db w1) !! ("BTCUSDT", "1h")) = Some (Some 0) /\
  let '(_, w2) := collect_single_symbol env_boot_ok "BTCUSDT" "1h" None None 1000 w1 in
  map rq_start (w_calls w2) = [Some (now_T - 30 * DAY_MS); Some (now_T - 30 * DAY_MS)] /\
  now_T - 30 * DAY_MS <> 0 + 3600000.
Proof. vm_compute. split; [reflexivity|]. split; [reflexivity | discriminate]. Qed.

(** C3 (as amended). Without an explicit start, for a known interval and a
    readable [collection_control]: a run sends exactly one klines request,
    whose start is [last_collected_time + interval_ms] when the cursor row
    holds a non-null, non-zero last_collected_time, and the 30-days-back
    bootstrap value otherwise (no row, NULL or 0). *)
Theorem C3_start_resolution (env : Env) symbol interval end_time limit w ms :
  env_db_fail env OpReadControl = None ->
  interval_ms interval = Ok ms ->
  let cur := match st_control (w_db w) !! (symbol, interval) with
             | Some c => last_collected_time c | None => None end in
  let expected := match truthy cur with
                  | Some lt => lt + ms
                  | None => thirty_days_back env
                  end in
  w_calls (snd (collect_single_symbol env symbol interval None end_time limit w)) =
    w_calls w ++ [klines_request symbol interval expected end_time limit].
Proof.
  intros Hr Hms cur expected.
  pose proof (resolve_start_world env symbol interval None w) as Hw.
  assert (Hv : fst (resolve_start env symbol interval None w) = Ok expected).
  { rewrite (resolve_start_none env symbol interval w Hr). unfold cursor_start, expected, cur.
    rewrite Hms. destruct (truthy _); reflexivity. }
  unfold collect_single_symbol.
  destruct (resolve_start env symbol interval None w) as [[st|e] w1]; simpl in Hw, Hv; subst w1.
  - injection Hv as ->. unfold try_except.
    pose proof (collect_body_calls env symbol interval expected end_time limit w) as Hc.
    destruct (collect_body env symbol interval expected end_time limit w) as [[a|e] w2];
      simpl in *.
    + exact Hc.
    + rewrite on_error_calls. exact Hc.
  - discriminate Hv.
Qed.

Lemma C3_start_resolution_witness :
  env_db_fail env_boot_ok OpReadControl = None /\ interval_ms "1h" = Ok 3600000 /\
  w_calls (snd (collect_single_symbol env_boot_ok "BTCUSDT" "1h" None None 1000 w_zero_cursor)) =
    w_calls w_zero_cursor ++ [klines_request "BTCUSDT" "1h" (thirty_days_back env_boot_ok) None 1000].
Proof.
  split; [reflexivity|]. split; [reflexivity|].
  exact (C3_start_resolution env_boot_ok "BTCUSDT" "1h" None 1000 w_zero_cursor 3600000
           eq_refl eq_refl).
Defined.

(** C4. For a run whose writes succeed: an empty fetch result returns
    [(0, "success")] and leaves the whole database (so the cursor row)
    unchanged; a non-empty batch of closed candles is stored (every row's key
    is in [candles] afterwards) and the cursor gets last_collected_time =
    the largest open_time of the batch, status "active", error_count 0. *)
Theorem C4_cursor_after_success (env : Env) symbol interval start_time end_time limit w st ks :
  fst (resolve_start env symbol interval start_time w) = Ok st ->
  env_fetch env (klines_request symbol interval st end_time limit) = Ok ks ->
  env_db_fail env OpInsertCandles = None ->
  env_db_fail env OpUpsertControl = None ->
  env_db_fail env OpLogCollection = None ->
  let '(r, w') := collect_single_symbol env symbol interval start_time end_time limit w in
  (ks = [] -> r = Ok (0, "success") /\ w_db w' = w_db w) /\
  (forall c cs, filter_closed env symbol interval ks = c :: cs ->
     (exists n, r = Ok (n, "success")) /\
     (forall x, In x (c :: cs) -> exists y, In y (st_candles (w_db w')) /\ same_key x y = true) /\
     exists cur m, st_control (w_db w') !! (symbol, interval) = Some cur /\
       last_collected_time cur = Some m /\
       In m (map c_open_time (c :: cs)) /\
       (forall x, In x (c :: cs) -> c_open_time x <= m) /\
       status cur = "active" /\ error_count cur = 0).
Proof.
  intros Hres Hf Hi Hu Hl.
  destruct (collect_single_symbol env symbol interval start_time end_time limit w)
    as [r w'] eqn:Erun.
  split.
  - intros ->. rewrite (collect_empty_fetch_run env _ _ _ _ _ _ _ Hres Hf) in Erun.
    injection Erun as <- <-. split; reflexivity.
  - intros c cs Hfl.
    pose proof (collect_success_run env _ _ _ _ _ _ _ _ _ _ Hres Hf Hfl Hi Hu Hl) as Hrun.
    cbv zeta in Hrun.
    pose proof (insert_ignore_stored (st_candles (w_db w)) (c :: cs)) as Hst.
    destruct (insert_ignore (st_candles (w_db w)) (c :: cs)) as [t n].
    rewrite Hrun in Erun. injection Erun as <- <-. simpl in *.
    split; [eexists; reflexivity|]. split; [exact Hst|].
    destruct (batch_max_spec c cs) as [Hin Hge].
    eexists _, _. rewrite lookup_insert_eq. split; [reflexivity|].
    destruct (st_control (w_db w) !! (symbol, interval)); simpl;
      repeat split; [exact Hin| exact Hge | exact Hin | exact Hge].
Qed.

Lemma C4_cursor_after_success_witness :
  let '(r, w') := collect_single_symbol env_closing_now "BTCUSDT" "1h" (Some 0) None 1000 w_empty in
  ([k_first; k_second] = [] -> r = Ok (0, "success") /\ w_db w' = w_db w_empty) /\
  (forall c cs, filter_closed env_closing_now "BTCUSDT" "1h" [k_first; k_second] = c :: cs ->
     (exists n, r = Ok (n, "success")) /\
     (forall x, In x (c :: cs) -> exists y, In y (st_candles (w_db w')) /\ same_key x y = true) /\
     exists cur m, st_control (w_db w') !! ("BTCUSDT", "1h") = Some cur /\
       last_collected_time cur = Some m /\
       In m (map c_open_time (c :: cs)) /\
       (forall x, In x (c :: cs) -> c_open_time x <= m) /\
       status cur = "active" /\ error_count cur = 0).
Proof.
  apply (C4_cursor_after_success env_closing_now "BTCUSDT" "1h" (Some 0) None 1000 w_empty 0);
    reflexivity.
Defined.

(** C9. When the batch of closed candles is non-empty and the writes
    succeed, the cursor moves to the batch's largest open_time whatever
    [INSERT IGNORE] reports (also 0 when every row was a duplicate), while
    the run's result and its success log row carry the inserted count. *)
Theorem C9_cursor_advances_on_duplicates (env : Env) symbol interval start_time end_time limit w
    st ks c cs :
  fst (resolve_start env symbol interval start_time w) = Ok st ->
  env_fetch env (klines_request symbol interval st end_time limit) = Ok ks ->
  filter_closed env symbol interval ks = c :: cs ->
  env_db_fail env OpInsertCandles = None ->
  env_db_fail env OpUpsertControl = None ->
  env_db_fail env OpLogCollection = None ->
  let n := snd (insert_ignore (st_candles (w_db w)) (c :: cs)) in
  let '(r, w') := collect_single_symbol env symbol interval start_time end_time limit w in
  r = Ok (n, "success") /\
  (last_collected_time <$> st_control (w_db w') !! (symbol, interval))
    = Some (Some (fold_left Z.max (map c_open_time cs) (c_open_time c))) /\
  st_logs (w_db w') = st_logs (w_db w) ++
    [mkLogRow symbol interval "single" st (end_or_now env end_time) n "success" None].
Proof.
  intros Hres Hf Hfl Hi Hu Hl.
  pose proof (collect_success_run env _ _ _ _ _ _ _ _ _ _ Hres Hf Hfl Hi Hu Hl) as Hrun.
  cbv zeta in *. destruct (insert_ignore (st_candles (w_db w)) (c :: cs)) as [t n].
  rewrite Hrun. simpl. rewrite lookup_insert_eq. simpl.
  split; [reflexivity|]. split; [|reflexivity].
  destruct (st_control (w_db w) !! (symbol, interval)); reflexivity.
Qed.

(** All rows of the batch are stored already: nothing is inserted, the
    cursor still moves to 3600000. *)
Lemma C9_cursor_advances_on_duplicates_witness :
  snd (insert_ignore (st_candles (w_db w_dup)) [row_a]) = 0 /\
  let '(r, w') := collect_single_symbol env_dup "ETHUSDT" "1h" (Some 3600000) None 1000 w_dup in
  r = Ok (0, "success") /\
  (last_collected_time <$> st_control (w_db w') !! ("ETHUSDT", "1h")) = Some (Some 3600000) /\
  st_logs (w_db w') = st_logs (w_db w_dup) ++
    [mkLogRow "ETHUSDT" "1h" "single" 3600000 (end_or_now env_dup None) 0 "success" None].
Proof.
  split; [reflexivity|].
  exact (C9_cursor_advances_on_duplicates env_dup "ETHUSDT" "1h" (Some 3600000) None 1000 w_dup
           3600000 [mkKline 3600000 7199999 []] row_a [] eq_refl eq_refl eq_refl eq_refl eq_refl eq_refl).
Defined.

(** * Claims about [fill_missing_data] *)




(** * Claims about [_make_request] *)

(** C6 (counterexample). A 400 answer is not surfaced at once: with
    [max_retries = 3] and [retry_delay = 1], a client error on the first
    attempt is followed by a 1 s sleep and a second attempt, whose answer
    is returned. *)
Lemma C6_client_error_is_retried :
  make_request 3 1 (fun i => match i with
                             | O => AFail (HttpStatus 400) "400 Client Error: Bad Request"
                             | _ => AOk "[]"
                             end) = (RJson "[]", [1]).
Proof. reflexivity. Qed.

(** C6 (as amended). With [max_retries >= 1], every failed attempt is
    treated alike, whatever the failure (timeout, connection error, any HTTP
    error status: 4xx, 429 or 5xx). If attempt [n] is the first to succeed
    (n < max_retries), its JSON is returned after the sleeps
    [retry_delay * 1, ..., retry_delay * n]. If all [max_retries] attempts
    fail, the last attempt's error is raised after the sleeps
    [retry_delay * 1, ..., retry_delay * (max_retries - 1)]. *)
Theorem C6_retry_policy (max_retries retry_delay : Z) (outcome : nat -> Attempt) :
  1 <= max_retries ->
  (forall n body, (n < Z.to_nat max_retries)%nat ->
     (forall i, (i < n)%nat -> is_fail (outcome i)) -> outcome n = AOk body ->
     make_request max_retries retry_delay outcome = (RJson body, backoff_delays retry_delay n)) /\
  ((forall i, (i < Z.to_nat max_retries)%nat -> is_fail (outcome i)) ->
     make_request max_retries retry_delay outcome =
       (RRaise (fail_text (outcome (Z.to_nat max_retries - 1)%nat)),
        backoff_delays retry_delay (Z.to_nat max_retries - 1))).
Proof.
  intros Hmax. split.
  - intros n body Hn Hf Ho. unfold make_request.
    rewrite (make_request_loop_success max_retries retry_delay outcome Hmax
               (Z.to_nat max_retries) 0 n body) by (intros; first [exact Ho | apply Hf; lia | lia]).
    rewrite Nat.sub_0_r. reflexivity.
  - intros Hf. unfold make_request.
    rewrite (make_request_loop_exhausted max_retries retry_delay outcome Hmax
               (Z.to_nat max_retries) 0) by (intros; first [apply Hf; lia | lia]).
    reflexivity.
Qed.

(** The configured [max_retries = 3], [retry_delay = 1]: a timeout, a 503,
    then a 429 exhaust the attempts. *)
Lemma C6_retry_policy_witness :
  let outcome := fun i => match i with
                          | O => AFail Timeout "Read timed out"
                          | 1%nat => AFail (HttpStatus 503) "503 Server Error"
                          | _ => AFail (HttpStatus 429) "429 Client Error"
                          end in
  make_request 3 1 outcome = (RRaise "429 Client Error", [1; 2]).
Proof.
  intros outcome.
  destruct (C6_retry_policy 3 1 outcome ltac:(lia)) as [_ H].
  rewrite H.
  - reflexivity.
  - intros [|[|i]] _; exact I.
Defined.

(** * Claims about continuous mode *)

(** C7 (counterexample). Nothing stops a tick from enqueueing a pair that
    is still open: tick, a worker takes the BTCUSDT/1h task, tick again;
    the reachable state has one such task in flight and one queued. *)
Lemma C7_two_open_jobs_for_one_pair :
  let s := mkSched [("BTCUSDT", "1h")] [("BTCUSDT", "1h")] false in
  sched_reachable s /\ open_jobs ("BTCUSDT", "1h") s = 2%nat.
Proof.
  split; [|reflexivity].
  change (mkSched [("BTCUSDT", "1h")] [("BTCUSDT", "1h")] false)
    with (_schedule_collection ["BTCUSDT"] "1h" (mkSched [] [("BTCUSDT", "1h")] false)).
  eapply ReachStep; [|apply StepTick].
  change (mkSched [] [("BTCUSDT", "1h")] false) with (mkSched [] ([] ++ [("BTCUSDT", "1h")]) false).
  eapply ReachStep; [|apply StepTake].
  change (mkSched [("BTCUSDT", "1h")] [] false) with (_schedule_collection ["BTCUSDT"] "1h" sched_init).
  eapply ReachStep; [apply ReachInit | apply StepTick].
Qed.

(** C7 (as amended). Unless the stop event is set, a tick appends one
    [(symbol, interval)] task per active token to the queue, whatever is
    already queued or in flight: the open jobs of each pair grow by the
    number of times its symbol is listed. *)
Theorem C7_tick_enqueues_every_token (tokens : list string) (interval : string) (s : Sched) :
  sq_stop s = false ->
  _schedule_collection tokens interval s =
    mkSched (sq_queue s ++ map (fun t => (t, interval)) tokens) (sq_inflight s) false /\
  (forall t, open_jobs (t, interval) (_schedule_collection tokens interval s) =
             (open_jobs (t, interval) s +
              length (List.filter (fun u => bool_decide (u = t)) tokens))%nat).
Proof.
  intros Hs. unfold _schedule_collection. rewrite (schedule_tokens_run _ _ _ Hs).
  split; [reflexivity|]. intros t. unfold open_jobs. simpl.
  rewrite <- app_assoc, !List.filter_app, !length_app, filter_pair_map. lia.
Qed.

Lemma C7_tick_enqueues_every_token_witness :
  let s := mkSched [] [("BTCUSDT", "1h")] false in
  _schedule_collection ["BTCUSDT"] "1h" s = mkSched [("BTCUSDT", "1h")] [("BTCUSDT", "1h")] false /\
  (forall t, open_jobs (t, "1h") (_schedule_collection ["BTCUSDT"] "1h" s) =
             (open_jobs (t, "1h") s + length (List.filter (fun u => bool_decide (u = t)) ["BTCUSDT"]))%nat).
Proof. exact (C7_tick_enqueues_every_token ["BTCUSDT"] "1h" (mkSched [] [("BTCUSDT", "1h")] false) eq_refl). Defined.

(** * Claims about [_get_schedule_interval] *)

(** The length of a candle of a supported interval, in milliseconds. *)
Definition interval_length (i : string) : Z :=
  match assoc_lookup i INTERVAL_MS with Some ms => ms | None => 0 end.

(** C8 (counterexample). 15m is a sub-hour interval, yet it is polled every
    15 minutes, not every 5. *)
Lemma C8_fifteen_minutes_not_five :
  _get_schedule_interval "15m" = 15 /\ interval_length "15m" < 3600000.
Proof. split; reflexivity. Qed.

(** C8 (as amended). The cadence in minutes: 5 for 1m, 3m and 5m; 15 for
    15m and 30m; 60 for 1h and 2h; 240 for every larger interval. It is
    shorter than the interval itself exactly for 30m, 2h, 6h, 8h, 12h, 1d,
    3d, 1w and 1M. *)
Theorem C8_schedule_cadence :
  map (fun i => (i, _get_schedule_interval i)) INTERVALS =
    [("1m", 5); ("3m", 5); ("5m", 5); ("15m", 15); ("30m", 15); ("1h", 60); ("2h", 60);
     ("4h", 240); ("6h", 240); ("8h", 240); ("12h", 240); ("1d", 240); ("3d", 240);
     ("1w", 240); ("1M", 240)] /\
  List.filter (fun i => Z.ltb (_get_schedule_interval i * 60000) (interval_length i)) INTERVALS =
    ["30m"; "2h"; "6h"; "8h"; "12h"; "1d"; "3d"; "1w"; "1M"].
Proof. split; vm_compute; reflexivity. Qed.

(** * Claims about the indicators *)

(** C10 (counterexample). Nothing rejects a period below [1]. With
    [period = -1], [[None] * period] is empty, [gains[:period]] drops the
    last gain and [range(period, len(deltas))] starts at [-1]. So [rsi] on
    two prices returns three values. With [period = 0], [sma] divides by
    zero and raises [ZeroDivisionError] instead of returning a list. *)
Lemma C10_negative_period :
  rsi [float_of_Z 1; float_of_Z 2] (-1) =
    Ok [Some (float_of_Z 100); Some (float_of_Z 100); Some (float_of_Z 100)] /\
  sma [float_of_Z 1; float_of_Z 2] 0 = Raise "ZeroDivisionError: division by zero".
Proof. split; vm_compute; reflexivity. Qed.

(** C10. For positive periods, and for [stochastic] with equally long
    [highs], [lows] and [closes], every indicator returns without raising.
    Each output list is as long as the input, and [None] fills exactly its
    first [c] positions, those lacking enough history:
    - [sma]: [c] is [period - 1], or every position when the input has
      fewer than [period] prices;
    - [rsi]: [c] is [period], or every position when the input has at most
      [period] prices;
    - [macd]: the line has the longer [None] prefix of the two EMAs. The
      signal line and the histogram add the EMA prefix of the line's
      [len - cm] values, where [cm] counts the line's [None] entries;
    - [stochastic]: [%K] has the [k_period - 1] prefix, capped at the input
      length. [%D] adds the SMA prefix of the [%K] values. *)
Theorem C10_indicator_lengths {R : Type} `{PyNum R} (prices highs lows closes : list R)
    (sma_period rsi_period fast slow signal k_period d_period : Z) :
  1 <= sma_period -> 1 <= rsi_period ->
  1 <= fast -> 1 <= slow -> 1 <= signal ->
  1 <= k_period -> 1 <= d_period ->
  length highs = length closes -> length lows = length closes ->
  let n := length prices in
  (exists out, sma prices sma_period = Ok out /\ none_prefix out n (warmup n sma_period)) /\
  (exists out, rsi prices rsi_period = Ok out /\ none_prefix out n (warmup n (rsi_period + 1))) /\
  (let cm := Nat.max (warmup n fast) (warmup n slow) in
   let cs := (cm + warmup (n - cm) signal)%nat in
   exists macd_line signal_line histogram,
     macd prices fast slow signal = Ok (macd_line, signal_line, histogram) /\
     none_prefix macd_line n cm /\ none_prefix signal_line n cs /\ none_prefix histogram n cs) /\
  (let m := length closes in
   let ck := warmup m k_period in
   exists k_values d_values,
     stochastic highs lows closes k_period d_period = Ok (k_values, d_values) /\
     none_prefix k_values m ck /\ none_prefix d_values m (ck + warmup (m - ck) d_period)).
Proof.
  intros Hsma Hrsi Hf Hs Hg Hk Hd Hh Hl n.
  split; [|split; [|split]].
  - destruct (sma_shape prices sma_period Hsma) as (vs & E & L).
    eexists. split; [exact E|]. apply none_prefix_shape. exact L.
  - destruct (rsi_shape prices rsi_period Hrsi) as (vs & E & L).
    eexists. split; [exact E|]. apply none_prefix_shape. exact L.
  - intros cm cs.
    destruct (macd_shape prices fast slow signal Hf Hs Hg) as (vm & vs & vh & E & Lm & Ls & Lh).
    do 3 eexists. split; [exact E|].
    split; [|split]; apply none_prefix_shape; assumption.
  - intros m ck.
    destruct (stochastic_shape highs lows closes k_period d_period Hk Hd Hh Hl)
      as (vk & vd & E & Lk & Ld).
    do 2 eexists. split; [exact E|].
    split; apply none_prefix_shape; assumption.
Qed.

(** Eight closing prices, four bars for the stochastic. *)
Lemma C10_indicator_lengths_witness :
  let prices := map float_of_Z [1; 2; 3; 2; 5; 4; 7; 8] in
  let highs := map float_of_Z [3; 4; 5; 6] in
  let lows := map float_of_Z [1; 2; 3; 2] in
  let closes := map float_of_Z [2; 3; 4; 5] in
  (exists out, sma prices 3 = Ok out /\ none_prefix out 8 2) /\
  (exists out, rsi prices 2 = Ok out /\ none_prefix out 8 2) /\
  (exists m s h, macd prices 2 3 2 = Ok (m, s, h) /\
     none_prefix m 8 2 /\ none_prefix s 8 3 /\ none_prefix h 8 3) /\
  (exists k d, stochastic highs lows closes 2 2 = Ok (k, d) /\
     none_prefix k 4 1 /\ none_prefix d 4 2).
Proof.
  intros prices highs lows closes.
  exact (C10_indicator_lengths prices highs lows closes 3 2 2 3 2 2 2
           ltac:(lia) ltac:(lia) ltac:(lia) ltac:(lia) ltac:(lia) ltac:(lia) ltac:(lia)
           eq_refl eq_refl).
Defined.

(** * Further properties of the collector *)

Lemma same_key_iff a b : same_key a b = true <-> candle_key a = candle_key b.
Proof.
  unfold same_key, candle_key. rewrite !andb_true_iff, !String.eqb_eq, Z.eqb_eq.
  split.
  - intros [[-> ->] ->]. reflexivity.
  - intros Heq. inversion Heq. auto.
Qed.

Lemma insert_ignore_grow tbl rows :
  exists added, insert_ignore tbl rows = (tbl ++ added, Z.of_nat (length added)) /\
                (forall x, In x added -> In x rows).
Proof.
  revert tbl. induction rows as [|r rs IH]; intros tbl; cbn.
  - exists []. rewrite app_nil_r. split; [reflexivity | contradiction].
  - destruct (existsb (same_key r) tbl).
    + destruct (IH tbl) as (added & E & Hin). exists added.
      split; [exact E|]. intros x Hx. right. auto.
    + destruct (IH (tbl ++ [r])) as (added & E & Hin). rewrite E.
      exists (r :: added). rewrite <- app_assoc. cbn [length app].
      split; [f_equal; lia|].
      intros x [<-|Hx]; [left; reflexivity | right; auto].
Qed.

Lemma insert_ignore_unique tbl rows :
  keys_unique tbl ->
  keys_unique (fst (insert_ignore tbl rows)) /\
  forall x, In x rows -> exists y, In y (fst (insert_ignore tbl rows)) /\ candle_key y = candle_key x.
Proof.
  revert tbl. induction rows as [|r rs IH]; intros tbl Hu; cbn.
  - split; [exact Hu | contradiction].
  - destruct (existsb (same_key r) tbl) eqn:Ex.
    + destruct (IH tbl Hu) as [Hu' Hall]. split; [exact Hu'|].
      intros x [<-|Hx]; [|auto].
      apply existsb_exists in Ex as (y & Hy & Hk). apply same_key_iff in Hk.
      exists y. split; [apply insert_ignore_keeps; exact Hy | symmetry; exact Hk].
    + assert (Hu2 : keys_unique (tbl ++ [r])).
      { unfold keys_unique. rewrite map_app. apply NoDup_app. split; [exact Hu|]. split.
        - intros k Hk Hk'. apply list_elem_of_In in Hk'. destruct Hk' as [<-|[]].
          apply list_elem_of_In, in_map_iff in Hk as (y & Hky & Hy).
          assert (existsb (same_key r) tbl = true) as Hc.
          { apply existsb_exists. exists y. split; [exact Hy|]. apply same_key_iff. congruence. }
          congruence.
        - apply NoDup_singleton. }
      destruct (insert_ignore (tbl ++ [r]) rs) as [t n] eqn:Ei.
      destruct (IH (tbl ++ [r]) Hu2) as [Hu' Hall]. rewrite Ei in Hu', Hall. cbn in *.
      split; [exact Hu'|].
      intros x [<-|Hx]; [|auto].
      exists r. split; [|reflexivity].
      pose proof (insert_ignore_keeps (tbl ++ [r]) rs r) as Hk. rewrite Ei in Hk.
      apply Hk. apply in_or_app. right. left. reflexivity.
Qed.

Definition upd_status (u : Z * string * option string) : string :=
  let '(_, st, _) := u in st.

Definition upd_fold (old : option Cursor) (us : list (Z * string * option string)) : option Cursor :=
  fold_left (fun acc '(t, st, e) => Some (upsert_cursor acc t st e)) us old.

Lemma run_updates_state env symbol interval us w :
  env_db_fail env OpUpsertControl = None ->
  let '(r, w') := run_updates env symbol interval us w in
  r = Ok tt /\ st_candles (w_db w') = st_candles (w_db w) /\ st_logs (w_db w') = st_logs (w_db w) /\
  w_calls w' = w_calls w /\
  (forall k, k <> (symbol, interval) -> st_control (w_db w') !! k = st_control (w_db w) !! k) /\
  st_control (w_db w') !! (symbol, interval) = upd_fold (st_control (w_db w) !! (symbol, interval)) us.
Proof.
  intros Hu. revert w. induction us as [|[[t st] e] us IH]; intros w; cbn.
  - repeat split; reflexivity.
  - unfold bind, update_collection_control, db_run. rewrite Hu. cbn.
    specialize (IH (set_db w (mkStore (st_candles (w_db w))
        (<[(symbol, interval) := upsert_cursor (st_control (w_db w) !! (symbol, interval)) t st e]>
           (st_control (w_db w))) (st_logs (w_db w))))).
    destruct (run_updates env symbol interval us _) as [r w'].
    destruct IH as (Hr & Hc & Hl & Hw & Hne & Hk). cbn in *.
    repeat split; try assumption.
    + intros k Hk'. rewrite Hne by exact Hk'. apply lookup_insert_ne. congruence.
    + rewrite Hk, lookup_insert_eq. reflexivity.
Qed.

Lemma upd_fold_errors old us u :
  exists c, upd_fold old (us ++ [u]) = Some c /\
  error_count c = Z.of_nat (error_streak (map upd_status (us ++ [u]))) +
                  (if forallb (fun st => String.eqb st "error") (map upd_status (us ++ [u]))
                   then cursor_errors old else 0).
Proof.
  revert u. induction us as [|v us IH] using rev_ind; intros [[t st] e].
  - cbn. eexists. split; [reflexivity|]. unfold error_streak. cbn.
    destruct old; cbn; destruct (String.eqb st "error"); cbn; lia.
  - destruct (IH v) as (c & Hc & He).
    unfold upd_fold in *. rewrite fold_left_app, Hc. cbn. eexists. split; [reflexivity|].
    unfold error_streak in *. rewrite map_app, fold_left_app, forallb_app. cbn.
    destruct (String.eqb st "error"); cbn.
    + rewrite andb_true_r. lia.
    + rewrite andb_false_r. lia.
Qed.

(** X5. After a sequence of [update_collection_control] calls on one pair the cursor holds the
    last call's time, status and error, and its error_count is the number of trailing ['error']
    statuses, plus the count stored before when every status of the sequence was ['error']. *)
Theorem X_error_count_streak env symbol interval us t st e w :
  env_db_fail env OpUpsertControl = None ->
  let sts := map upd_status (us ++ [(t, st, e)]) in
  let '(r, w') := run_updates env symbol interval (us ++ [(t, st, e)]) w in
  r = Ok tt /\
  exists c, st_control (w_db w') !! (symbol, interval) = Some c /\
    last_collected_time c = Some t /\ status c = st /\ last_error c = e /\
    error_count c = Z.of_nat (error_streak sts) +
      (if forallb (fun s => String.eqb s "error") sts
       then cursor_errors (st_control (w_db w) !! (symbol, interval)) else 0).
Proof.
  intros Hu. cbv zeta.
  pose proof (run_updates_state env symbol interval (us ++ [(t, st, e)]) w Hu) as Hs.
  destruct (run_updates env symbol interval (us ++ [(t, st, e)]) w) as [r w'].
  destruct Hs as (Hr & _ & _ & _ & _ & Hk). split; [exact Hr|].
  destruct (upd_fold_errors (st_control (w_db w) !! (symbol, interval)) us (t, st, e)) as (c & Hc & He).
  exists c. rewrite Hk, Hc. split; [reflexivity|].
  unfold upd_fold in Hc. rewrite fold_left_app in Hc. cbn in Hc. injection Hc as <-.
  split; [|split; [|split]]; try reflexivity.
  - destruct (fold_left _ us _); reflexivity.
  - destruct (fold_left _ us _); reflexivity.
  - destruct (fold_left _ us _); reflexivity.
  - exact He.
Qed.

(** X3. [insert_candles] with [INSERT IGNORE] on a table with unique keys appends the rows whose
    key is new, returns their number, keeps the keys unique and leaves the control and log
    tables alone; afterwards every key of the batch is in the table. *)
Theorem X_insert_candles_ignore env rows w :
  keys_unique (st_candles (w_db w)) ->
  env_db_fail env OpInsertCandles = None ->
  let '(r, w') := insert_candles env rows w in
  exists added,
    r = Ok (Z.of_nat (length added)) /\
    st_candles (w_db w') = st_candles (w_db w) ++ added /\
    st_control (w_db w') = st_control (w_db w) /\ st_logs (w_db w') = st_logs (w_db w) /\
    keys_unique (st_candles (w_db w')) /\
    (forall x, In x added -> In x rows) /\
    (forall x, In x rows -> exists y, In y (st_candles (w_db w')) /\ candle_key y = candle_key x).
Proof.
  intros Hu Hi. destruct rows as [|r rs].
  - exists []. cbn. rewrite app_nil_r. repeat split; auto. intros x [].
  - unfold insert_candles, db_run. rewrite Hi.
    pose proof (insert_ignore_unique (st_candles (w_db w)) (r :: rs) Hu) as [Hu' Hall].
    destruct (insert_ignore_grow (st_candles (w_db w)) (r :: rs)) as (added & E & Hin).
    rewrite E in *. cbn in *. exists added. repeat split; auto.
Qed.

(** The rows of one pair. *)
Definition of_pair (symbol interval : string) (c : CandleRow) : Prop :=
  c_symbol c = symbol /\ c_interval c = interval.

Lemma max_open_time_fold tbl symbol interval acc :
  let f := fun acc c =>
      if String.eqb (c_symbol c) symbol && String.eqb (c_interval c) interval
      then Some (match acc with Some m => Z.max m (c_open_time c) | None => c_open_time c end)
      else acc in
  (fold_left f tbl acc = None -> acc = None /\ forall c, In c tbl -> ~ of_pair symbol interval c) /\
  (forall m, fold_left f tbl acc = Some m ->
     (acc = Some m \/ exists c, In c tbl /\ of_pair symbol interval c /\ c_open_time c = m) /\
     (forall a, acc = Some a -> a <= m) /\
     (forall c, In c tbl -> of_pair symbol interval c -> c_open_time c <= m)).
Proof.
  intros f. revert acc. induction tbl as [|c tbl IH]; intros acc; cbn.
  - split; [intros ->; split; [reflexivity | intros c []]|].
    intros m ->. split; [left; reflexivity|]. split; [intros a [=->]; lia | intros c []].
  - destruct (IH (f acc c)) as [IHn IHs]. unfold of_pair in *.
    destruct (String.eqb (c_symbol c) symbol && String.eqb (c_interval c) interval) eqn:Em.
    + assert (Hf : f acc c = Some (match acc with Some m => Z.max m (c_open_time c)
                                  | None => c_open_time c end)) by (unfold f; rewrite Em; reflexivity).
      apply andb_true_iff in Em as [Es Ei]. apply String.eqb_eq in Es, Ei.
      rewrite Hf in IHn, IHs |- *.
      split; [intros Hn; destruct (IHn Hn) as [[=] _]|].
      intros m Hm. destruct (IHs m Hm) as (Hw & Ha & Hc). split; [|split].
      * destruct Hw as [[=Hw]|(c' & Hc' & Hp & Ho)]; [|right; exists c'; auto].
        destruct acc as [a|].
        -- destruct (Z.max_spec a (c_open_time c)) as [[_ Hx]|[_ Hx]]; rewrite Hx in Hw.
           ++ right. exists c. auto.
           ++ left. congruence.
        -- right. exists c. auto.
      * intros a ->. specialize (Ha _ eq_refl). lia.
      * intros c' [<-|Hc'] Hp; [|apply Hc; auto].
        specialize (Ha _ eq_refl). destruct acc; lia.
    + assert (Hf : f acc c = acc) by (unfold f; rewrite Em; reflexivity).
      assert (Hnp : ~ (c_symbol c = symbol /\ c_interval c = interval)).
      { intros [Es Ei]. subst. rewrite !String.eqb_refl in Em. discriminate. }
      rewrite Hf in IHn, IHs |- *.
      split; [intros Hn; destruct (IHn Hn) as [Ha Hc]; split; [exact Ha|]; intros c' [<-|Hc'];
              [exact Hnp | apply Hc; exact Hc']|].
      intros m Hm. destruct (IHs m Hm) as (Hw & Ha & Hc). split; [|split].
      * destruct Hw as [Hw|(c' & Hc' & Hp & Ho)]; [left; exact Hw|right; exists c'; auto].
      * exact Ha.
      * intros c' [<-|Hc'] Hp; [contradiction | apply Hc; auto].
Qed.

Lemma max_open_time_spec tbl symbol interval :
  (max_open_time tbl symbol interval = None -> forall c, In c tbl -> ~ of_pair symbol interval c) /\
  (forall m, max_open_time tbl symbol interval = Some m ->
     (exists c, In c tbl /\ of_pair symbol interval c /\ c_open_time c = m) /\
     (forall c, In c tbl -> of_pair symbol interval c -> c_open_time c <= m)).
Proof.
  destruct (max_open_time_fold tbl symbol interval None) as [Hn Hs]. unfold max_open_time.
  split; [intros H; apply (Hn H)|].
  intros m Hm. destruct (Hs m Hm) as ([[=]|Hw] & _ & Hc). auto.
Qed.

(** X4. [get_last_candle_time] returns [MAX(open_time)] of the pair's rows, with 0 read as no
    value: a returned time is nonzero and is the largest open_time of the pair; [None] means the
    pair has no row or its largest open_time is 0. *)
Theorem X_last_candle_time env symbol interval w :
  env_db_fail env OpReadLastCandle = None ->
  exists r, get_last_candle_time env symbol interval w = (Ok r, w) /\
  match r with
  | Some m =>
      m <> 0 /\
      (exists c, In c (st_candles (w_db w)) /\ of_pair symbol interval c /\ c_open_time c = m) /\
      (forall c, In c (st_candles (w_db w)) -> of_pair symbol interval c -> c_open_time c <= m)
  | None =>
      (forall c, In c (st_candles (w_db w)) -> ~ of_pair symbol interval c) \/
      ((exists c, In c (st_candles (w_db w)) /\ of_pair symbol interval c /\ c_open_time c = 0) /\
       (forall c, In c (st_candles (w_db w)) -> of_pair symbol interval c -> c_open_time c <= 0))
  end.
Proof.
  intros Hr. unfold get_last_candle_time, db_run. rewrite Hr.
  destruct (max_open_time_spec (st_candles (w_db w)) symbol interval) as [Hn Hs].
  eexists. split; [destruct w; reflexivity|].
  destruct (max_open_time (st_candles (w_db w)) symbol interval) as [m|] eqn:Em; cbn.
  - destruct (Hs m eq_refl) as [Hex Hle]. destruct (Z.eqb_spec m 0) as [->|Hm].
    + right. split; assumption.
    + split; [exact Hm|]. split; assumption.
  - left. apply Hn. reflexivity.
Qed.

(** X1. When the log insert, the candle read and the cursor upsert do not fail,
    [collect_single_symbol] never raises: every error of the fetch, the interval lookup or the
    bulk insert ends in its [except] block, which returns a result. *)
Theorem X_collect_never_raises env symbol interval start_time end_time limit w :
  env_db_fail env OpLogCollection = None ->
  env_db_fail env OpReadLastCandle = None ->
  env_db_fail env OpUpsertControl = None ->
  exists res, fst (collect_single_symbol env symbol interval start_time end_time limit w) = Ok res.
Proof.
  intros Hl Hr Hu. unfold collect_single_symbol.
  destruct (resolve_start env symbol interval start_time w) as [[st|e] w1].
  - unfold try_except. destruct (collect_body env symbol interval st end_time limit w1) as [[a|e] w2].
    + exists a. reflexivity.
    + rewrite (on_error_run env _ _ _ _ _ _ Hl Hr Hu). eexists. reflexivity.
  - rewrite (on_error_run env _ _ _ _ _ _ Hl Hr Hu). eexists. reflexivity.
Qed.

(** The [candles] table is written only by [insert_candles]. *)
Definition keeps_candles {A} (m : M A) : Prop :=
  forall w, st_candles (w_db (snd (m w))) = st_candles (w_db w).

Lemma keeps_candles_ret {A} (a : A) : keeps_candles (ret a).
Proof. intros w. reflexivity. Qed.

Lemma keeps_candles_lift {A} (r : Exc A) : keeps_candles (lift r).
Proof. intros w. destruct r; reflexivity. Qed.

Lemma keeps_candles_bind {A B} (m : M A) (k : A -> M B) :
  keeps_candles m -> (forall a, keeps_candles (k a)) -> keeps_candles (bind m k).
Proof.
  intros Hm Hk w. unfold bind. specialize (Hm w).
  destruct (m w) as [[a|e] w'] eqn:E; simpl in *; [rewrite Hk|]; exact Hm.
Qed.

Lemma keeps_candles_db_run {A} env op (f : Store -> A * Store) :
  (forall s, st_candles (snd (f s)) = st_candles s) -> keeps_candles (db_run env op f).
Proof.
  intros Hf w. unfold db_run. destruct (env_db_fail env op); [reflexivity|].
  specialize (Hf (w_db w)). destruct (f (w_db w)); exact Hf.
Qed.

Lemma keeps_candles_update env symbol interval t st e :
  keeps_candles (update_collection_control env symbol interval t st e).
Proof. apply keeps_candles_db_run. reflexivity. Qed.

Lemma keeps_candles_log env symbol interval ty s e n st err :
  keeps_candles (log_collection env symbol interval ty s e n st err).
Proof. apply keeps_candles_db_run. reflexivity. Qed.

Lemma keeps_candles_last env symbol interval :
  keeps_candles (get_last_candle_time env symbol interval).
Proof. apply keeps_candles_db_run. reflexivity. Qed.

Create HintDb candles.
#[local] Hint Resolve keeps_candles_ret keeps_candles_lift keeps_candles_bind keeps_candles_update
  keeps_candles_log keeps_candles_last : candles.

(** What [m ;;; ret a] returns normally is [a]. *)
Lemma then_ret_result {A B} (m : M A) (a : B) w b :
  fst ((m ;;; ret a) w) = Ok b -> b = a.
Proof. unfold bind, ret. destruct (m w) as [[x|e] w']; cbn; congruence. Qed.

Lemma on_error_candles env symbol interval start_time end_time e w :
  st_candles (w_db (snd (on_error env symbol interval start_time end_time e w))) = st_candles (w_db w) /\
  forall n msg, fst (on_error env symbol interval start_time end_time e w) = Ok (n, msg) -> n = 0.
Proof.
  split.
  - assert (H : keeps_candles (on_error env symbol interval start_time end_time e))
      by (unfold on_error; auto 10 with candles).
    apply H.
  - intros n msg. unfold on_error, bind at 1.
    destruct (log_collection _ _ _ _ _ _ _ _ _ w) as [[x|e'] w']; [|discriminate].
    unfold bind at 1. destruct (get_last_candle_time _ _ _ w') as [[y|e'] w'']; [|discriminate].
    intros H. apply then_ret_result in H. congruence.
Qed.

Lemma filter_closed_rows env symbol interval ks x :
  In x (filter_closed env symbol interval ks) ->
  c_symbol x = symbol /\ c_interval x = interval /\ c_close_time x <= env_now env.
Proof.
  unfold filter_closed. intros (k & <- & Hk)%in_map_iff.
  apply filter_In in Hk as [_ Hc]. unfold still_open in Hc.
  apply negb_true_iff in Hc. rewrite Z.gtb_ltb in Hc. apply Z.ltb_ge in Hc. cbn. auto.
Qed.

Lemma collect_body_candles env symbol interval st end_time limit w :
  let '(r, w') := collect_body env symbol interval st end_time limit w in
  exists added,
    st_candles (w_db w') = st_candles (w_db w) ++ added /\
    (forall x, In x added -> c_symbol x = symbol /\ c_interval x = interval /\
                             c_close_time x <= env_now env) /\
    (forall n msg, r = Ok (n, msg) -> n = Z.of_nat (length added)).
Proof.
  unfold collect_body, bind at 1, get_klines.
  destruct (env_fetch env _) as [ks|e].
  2:{ exists []. rewrite app_nil_r. split; [reflexivity|]. split; [intros x []|discriminate]. }
  destruct ks as [|k ks'].
  { exists []. rewrite app_nil_r. split; [reflexivity|]. split; [intros x []|].
    intros n msg [=<- _]. reflexivity. }
  set (w1 := mkWorld _ _).
  set (rows := filter_closed env symbol interval (k :: ks')).
  assert (Hrows : forall x, In x rows -> c_symbol x = symbol /\ c_interval x = interval /\
                                       c_close_time x <= env_now env)
    by (intros x; apply filter_closed_rows).
  clearbody rows.
  set (tail := fun inserted : Z =>
    match rows with
    | [] => ret tt
    | c :: cs => update_collection_control env symbol interval
                   (fold_left Z.max (map c_open_time cs) (c_open_time c)) "active" None
    end;;; log_collection env symbol interval "single" st (end_or_now env end_time) inserted
             "success" None;;; ret (inserted, "success")).
  assert (Htk : forall i, keeps_candles (tail i)).
  { intros i. unfold tail. destruct rows; auto 10 with candles. }
  assert (Htr : forall i w' n msg, fst (tail i w') = Ok (n, msg) -> n = i).
  { intros i w' n msg. unfold tail, bind at 1.
    destruct (match rows with [] => ret tt | _ => _ end w') as [[x|e] w'']; [|discriminate].
    intros H. apply then_ret_result in H. congruence. }
  fold (tail). unfold bind at 1.
  destruct rows as [|c cs].
  - cbn [insert_candles ret].
    pose proof (Htk 0 w1) as Hk. pose proof (Htr 0 w1) as Hr.
    destruct (tail 0 w1) as [r w']. cbn in Hk, Hr.
    exists []. rewrite app_nil_r. split; [exact Hk|].
    split; [intros x []|]. intros n msg ->. rewrite (Hr n msg eq_refl). reflexivity.
  - unfold insert_candles, db_run. destruct (env_db_fail env OpInsertCandles).
    + exists []. rewrite app_nil_r. split; [reflexivity|]. split; [intros x []|discriminate].
    + destruct (insert_ignore_grow (st_candles (w_db w1)) (c :: cs)) as (added & E & Hin).
      rewrite E. set (w2 := set_db w1 _).
      pose proof (Htk (Z.of_nat (length added)) w2) as Hk.
      pose proof (Htr (Z.of_nat (length added)) w2) as Hr.
      destruct (tail _ w2) as [r w']. cbn in Hk, Hr.
      exists added. split; [exact Hk|]. split.
      * intros x Hx. apply Hrows, Hin, Hx.
      * intros n msg ->. exact (Hr n msg eq_refl).
Qed.

(** X2. One run of [collect_single_symbol] only appends to the candles table; every row it adds
    has the run's symbol and interval and a close_time not after the wall clock; a returned
    count is 0 or the number of rows added. *)
Theorem X_collect_appends_closed_rows env symbol interval start_time end_time limit w :
  let '(r, w') := collect_single_symbol env symbol interval start_time end_time limit w in
  exists added,
    st_candles (w_db w') = st_candles (w_db w) ++ added /\
    (forall x, In x added -> c_symbol x = symbol /\ c_interval x = interval /\
                             c_close_time x <= env_now env) /\
    (forall n msg, r = Ok (n, msg) -> n = 0 \/ n = Z.of_nat (length added)).
Proof.
  unfold collect_single_symbol.
  pose proof (resolve_start_world env symbol interval start_time w) as Hw.
  destruct (resolve_start env symbol interval start_time w) as [[st|e] w1]; cbn in Hw; subst w1.
  - unfold try_except.
    pose proof (collect_body_candles env symbol interval st end_time limit w) as Hb.
    destruct (collect_body env symbol interval st end_time limit w) as [[a|e] w2].
    + destruct Hb as (added & Hc & Hx & Hn). exists added. split; [exact Hc|]. split; [exact Hx|].
      intros n msg Ha. right. apply (Hn n msg Ha).
    + destruct Hb as (added & Hc & Hx & _).
      destruct (on_error_candles env symbol interval (Some st) end_time e w2) as [Hk Hz].
      destruct (on_error env symbol interval (Some st) end_time e w2) as [r w3]. cbn in Hk, Hz.
      exists added. rewrite Hk. split; [exact Hc|]. split; [exact Hx|].
      intros n msg ->. left. exact (Hz n msg eq_refl).
  - destruct (on_error_candles env symbol interval start_time end_time e w) as [Hk Hz].
    destruct (on_error env symbol interval start_time end_time e w) as [r w3]. cbn in Hk, Hz.
    exists []. rewrite app_nil_r. split; [exact Hk|]. split; [intros x []|].
    intros n msg ->. left. exact (Hz n msg eq_refl).
Qed.

(** A gap fill of 0 days can still run: in the repeated hour after a
    fall-back change, [datetime.now() - timedelta(days=0)] has [fold = 0]
    and [timestamp()] reads it as the first pass, one hour before now. *)
Lemma fill_zero_days_in_repeated_hour :
  fill_start env_ny_fall 0 = env_now env_ny_fall - 3600000 /\
  w_calls (snd (fill_missing_data env_ny_fall (fun _ => false) "BTCUSDT" "1h" 0 w_empty)) =
    [window_request "BTCUSDT" "1h" (env_now env_ny_fall - 3600000, env_now env_ny_fall)].
Proof. split; vm_compute; reflexivity. Qed.



Lemma get_last_collected_time_run env symbol interval w :
  env_db_fail env OpReadControl = None ->
  get_last_collected_time env symbol interval w =
    (Ok (match st_control (w_db w) !! (symbol, interval) with
         | Some c => last_collected_time c | None => None end), w).
Proof. intros Hr. unfold get_last_collected_time, db_run. rewrite Hr. destruct w. reflexivity. Qed.

Lemma all_tokens_loop_run env stop interval limit ms tokens k total errors w :
  (forall j, stop j = false) ->
  interval_ms interval = Ok ms ->
  env_db_fail env OpReadControl = None ->
  env_db_fail env OpLogCollection = None ->
  env_db_fail env OpReadLastCandle = None ->
  env_db_fail env OpUpsertControl = None ->
  let '(r, w') := all_tokens_loop env stop interval limit k tokens total errors w in
  exists total' errors' calls,
    r = Ok (total', errors') /\ errors <= errors' <= errors + Z.of_nat (length tokens) /\
    w_calls w' = w_calls w ++ calls /\ map rq_symbol calls = tokens /\
    Forall (fun rq => rq_interval rq = interval /\ rq_end rq = None /\ rq_limit rq = Z.min limit 1000)
      calls.
Proof.
  intros Hs Hms Hc Hl Hr Hu. revert k total errors w.
  induction tokens as [|t ts IH]; intros k total errors w; cbn [all_tokens_loop].
  - exists total, errors, []. rewrite app_nil_r. cbn. repeat split; try lia. constructor.
  - rewrite Hs. unfold bind at 1. rewrite (get_last_collected_time_run env t interval w Hc).
    set (lt := match _ with Some c => _ | None => None end).
    assert (Hst : exists st, forall (K : Z -> M (Z * Z)) w0,
               bind (match truthy lt with
                     | Some lt0 => ms0 <- lift (interval_ms interval);; ret (lt0 + ms0)
                     | None => ret (thirty_days_back env)
                     end) K w0 = K st w0).
    { destruct (truthy lt) as [lt0|].
      - exists (lt0 + ms). intros K w0. unfold bind, lift. rewrite Hms. reflexivity.
      - exists (thirty_days_back env). intros K w0. reflexivity. }
    destruct Hst as [st Hst]. rewrite Hst. unfold bind at 1.
    pose proof (collect_explicit_calls env t interval st None limit w) as Hcalls.
    destruct (collect_explicit_returns env t interval st None limit w Hl Hr Hu) as [res Hres].
    destruct (collect_single_symbol env t interval (Some st) None limit w) as [r1 w1].
    cbn in Hcalls, Hres. subst r1.
    specialize (IH (S k) (total + fst res)
                  (if String.eqb (snd res) "success" then errors else errors + 1) w1).
    destruct (all_tokens_loop env stop interval limit (S k) ts _ _ w1) as [r2 w2].
    destruct IH as (total' & errors' & calls & -> & He & Hw & Hm & Hf).
    exists total', errors', (klines_request t interval st None limit :: calls).
    split; [reflexivity|]. split.
    { cbn [length]. destruct (String.eqb (snd res) "success"); lia. }
    split; [rewrite Hw, Hcalls, <- app_assoc; reflexivity|].
    split; [cbn; rewrite Hm; reflexivity|].
    constructor; [|exact Hf]. cbn. auto.
Qed.

(** X8. Without a stop request, and with a known interval and working statements,
    [collect_all_tokens_single] returns its totals with at most one error per token, and makes
    exactly one API request per token, in token order, each with the interval, no end time and
    the limit capped at 1000. *)
Theorem X_all_tokens_one_request_each env stop tokens interval limit ms w :
  (forall j, stop j = false) ->
  interval_ms interval = Ok ms ->
  env_db_fail env OpReadControl = None ->
  env_db_fail env OpLogCollection = None ->
  env_db_fail env OpReadLastCandle = None ->
  env_db_fail env OpUpsertControl = None ->
  let '(r, w') := collect_all_tokens_single env stop tokens interval limit w in
  exists total errors calls,
    r = Ok (total, errors) /\ 0 <= errors <= Z.of_nat (length tokens) /\
    w_calls w' = w_calls w ++ calls /\ map rq_symbol calls = tokens /\
    Forall (fun rq => rq_interval rq = interval /\ rq_end rq = None /\ rq_limit rq = Z.min limit 1000)
      calls.
Proof.
  intros Hs Hms Hc Hl Hr Hu. unfold collect_all_tokens_single.
  pose proof (all_tokens_loop_run env stop interval limit ms tokens 0 0 0 w Hs Hms Hc Hl Hr Hu) as H.
  destruct (all_tokens_loop env stop interval limit 0 tokens 0 0 w) as [r w'].
  destruct H as (total & errors & calls & Hr' & He & Hw & Hm & Hf).
  exists total, errors, calls. repeat split; auto; lia.
Qed.

(** X9. Unless stopped before the first token, [collect_all_tokens_single] raises the [KeyError]
    of an unknown interval as soon as the first token has a nonzero stored cursor, before any
    request or write. *)
Theorem X_all_tokens_unknown_interval env stop t rest interval limit w c e :
  stop 0%nat = false ->
  env_db_fail env OpReadControl = None ->
  st_control (w_db w) !! (t, interval) = Some c ->
  truthy (last_collected_time c) <> None ->
  interval_ms interval = Raise e ->
  collect_all_tokens_single env stop (t :: rest) interval limit w = (Raise e, w).
Proof.
  intros Hs Hc Hk Ht Hms. unfold collect_all_tokens_single. cbn [all_tokens_loop].
  rewrite Hs. unfold bind at 1. rewrite (get_last_collected_time_run env t interval w Hc), Hk.
  destruct (truthy (last_collected_time c)) as [lt|]; [|congruence].
  unfold bind, lift. rewrite Hms. reflexivity.
Qed.

(** * Further properties of the indicators *)

Lemma exc_map_ok {A B} (f : A -> Exc B) l :
  (forall x, In x l -> exists y, f x = Ok y) ->
  exists ys, exc_map f l = Ok ys /\ length ys = length l /\
    forall k x, nth_error l k = Some x -> exists y, f x = Ok y /\ nth_error ys k = Some y.
Proof.
  induction l as [|x l IH]; intros Hf; cbn.
  - exists []. split; [reflexivity|]. split; [reflexivity|]. intros [|k] x' [=].
  - destruct (Hf x (or_introl eq_refl)) as [y Ey]. rewrite Ey. cbn.
    destruct IH as (ys & E & L & N); [intros; apply Hf; right; assumption|].
    rewrite E. cbn. exists (y :: ys). split; [reflexivity|]. split; [cbn; lia|].
    intros [|k] x' Hk; cbn in Hk.
    + injection Hk as <-. exists y. auto.
    + apply N, Hk.
Qed.

Lemma nth_error_py_range n k :
  (k < Z.to_nat n)%nat -> nth_error (py_range 0 n) k = Some (Z.of_nat k).
Proof.
  intros Hk. unfold py_range. rewrite nth_error_map, nth_error_seq.
  destruct (Nat.ltb_spec k (Z.to_nat (n - 0))); [|lia]. cbn. reflexivity.
Qed.

Lemma py_index_nat {A} (l : list A) k :
  (k < length l)%nat -> exists x, py_index l (Z.of_nat k) = Ok x /\ nth_error l k = Some x.
Proof.
  intros Hk. destruct (py_index_ok l (Z.of_nat k)) as (x & E & N); [unfold py_len; lia|].
  rewrite Nat2Z.id in N. eauto.
Qed.

Lemma py_index_last_shape {A} c (vs : list A) n :
  (c + length vs = n)%nat -> (1 <= n)%nat ->
  exists o, py_index (repeat None c ++ map Some vs) (-1) = Ok o /\ (o = None <-> c = n).
Proof.
  intros Hn H1. destruct vs as [|v vs'] using rev_ind.
  - cbn in Hn. cbn [map]. rewrite app_nil_r. exists None. split; [|split; intros; [lia|reflexivity]].
    replace c with (c - 1 + 1)%nat by lia. rewrite repeat_app. cbn [repeat]. apply py_index_last.
  - exists (Some v). rewrite map_app. cbn [map]. rewrite app_assoc, py_index_last. split; [reflexivity|].
    rewrite length_app in Hn. cbn in Hn. split; [discriminate | lia].
Qed.

Lemma warmup_full n need : (1 <= n)%nat -> 1 <= need -> (warmup n need = n <-> Z.of_nat n < need).
Proof. intros. unfold warmup. destruct (Z.ltb_spec (Z.of_nat n) need); lia. Qed.

Section ReportFacts.
Context {R : Type} `{PyNum R}.

Lemma ema_loop_prefix (prices : list R) alpha idx acc r :
  ema_loop prices alpha idx acc = Ok r -> exists suf, r = acc ++ suf.
Proof.
  revert acc. induction idx as [|i idx IH]; intros acc Hr; cbn in Hr.
  - injection Hr as <-. exists []. rewrite app_nil_r. reflexivity.
  - destruct (py_index prices i); [|discriminate]. cbn in Hr.
    destruct (py_index acc (-1)) as [[l|]|]; cbn in Hr; try discriminate.
    destruct (IH _ Hr) as [suf ->]. eexists. rewrite <- app_assoc. reflexivity.
Qed.

Lemma fold_const (f : R -> R -> R) (r : list R) c :
  (forall a b, f a b = a \/ f a b = b) -> Forall (fun y => y = c) r -> fold_left f r c = c.
Proof.
  intros Hf Hr. induction Hr as [|y r Hy Hr IH]; cbn; [reflexivity|].
  subst y. destruct (Hf c c) as [E|E]; rewrite E; exact IH.
Qed.

Lemma py_max_const (l : list R) c : l <> [] -> Forall (fun y => y = c) l -> py_max l = Ok c.
Proof.
  intros Hne Hc. destruct l as [|x r]; [congruence|]. cbn.
  apply Forall_cons_iff in Hc as [-> Hr]. f_equal. apply fold_const; [|exact Hr].
  intros a b. destruct (n_ltb a b); auto.
Qed.

Lemma py_min_const (l : list R) c : l <> [] -> Forall (fun y => y = c) l -> py_min l = Ok c.
Proof.
  intros Hne Hc. destruct l as [|x r]; [congruence|]. cbn.
  apply Forall_cons_iff in Hc as [-> Hr]. f_equal. apply fold_const; [|exact Hr].
  intros a b. destruct (n_ltb b a); auto.
Qed.

End ReportFacts.

(** X10. For a period of at least 1, [ema] returns one entry per price, [None] exactly at the
    first period-1 positions (all of them when there are fewer prices than the period). *)
Theorem X_ema_lengths {R : Type} `{PyNum R} (prices : list R) period :
  1 <= period ->
  exists out, ema prices period = Ok out /\
              none_prefix out (length prices) (warmup (length prices) period).
Proof.
  intros Hp. destruct (ema_shape prices period Hp) as (vs & E & L).
  exists (repeat None (warmup (length prices) period) ++ map Some vs).
  split; [exact E | apply none_prefix_shape; exact L].
Qed.

Lemma sma_ok {R : Type} `{PyNum R} (prices : list R) period :
  1 <= period <= py_len prices ->
  exists s, exc_map (sma_point prices period) (py_range 0 (py_len prices)) = Ok s /\
    sma prices period = Ok s /\ length s = length prices /\
    forall k, (k < length prices)%nat ->
      exists y, sma_point prices period (Z.of_nat k) = Ok y /\ nth_error s k = Some y.
Proof.
  intros Hp.
  destruct (exc_map_ok (sma_point prices period) (py_range 0 (py_len prices))) as (s & E & L & N).
  { intros i _. unfold sma_point. destruct (Z.ltb i (period - 1)); [eauto|].
    unfold div_int. destruct (Z.eqb_spec period 0); [lia|]. cbn. eauto. }
  exists s. split; [exact E|]. split.
  { unfold sma. destruct (Z.ltb_spec (py_len prices) period); [lia|]. exact E. }
  rewrite py_range_length in L. unfold py_len in L. split; [lia|].
  intros k Hk. apply N. apply nth_error_py_range. unfold py_len. lia.
Qed.

(** X11. When the period is at most the number of prices, the first EMA value (at index
    period-1) is the SMA value at the same index. *)
Theorem X_ema_seed_is_sma {R : Type} `{PyNum R} (prices : list R) period :
  1 <= period <= py_len prices ->
  exists e s x, ema prices period = Ok e /\ sma prices period = Ok s /\
    nth_error e (Z.to_nat (period - 1)) = Some (Some x) /\
    nth_error s (Z.to_nat (period - 1)) = Some (Some x).
Proof.
  intros Hp.
  set (first := n_div (py_sum (py_slice prices 0 period)) (n_of_Z period)).
  set (c := Z.to_nat (period - 1)).
  destruct (ema_loop_shape prices (n_div (n_of_Z 2) (n_of_Z (period + 1)))
              (py_range period (py_len prices))) with (c := c) (vs := @nil R) (x := first)
    as (vs' & E & _).
  { intros i Hi. apply in_py_range in Hi. lia. }
  destruct (ema_loop_prefix _ _ _ _ _ E) as [suf Hsuf].
  destruct (sma_ok prices period Hp) as (s & _ & Es & Ls & Ns).
  destruct (Ns c) as (y & Ey & Ny); [unfold py_len in Hp; lia|].
  unfold sma_point in Ey. destruct (Z.ltb_spec (Z.of_nat c) (period - 1)); [lia|].
  unfold div_int in Ey. destruct (Z.eqb_spec period 0); [lia|]. cbn in Ey.
  replace (Z.of_nat c - period + 1) with 0 in Ey by lia.
  replace (Z.of_nat c + 1) with period in Ey by lia.
  injection Ey as <-.
  exists (repeat None c ++ map Some vs'), s, first.
  split; [|split; [exact Es|split; [|exact Ny]]].
  - unfold ema. destruct (Z.ltb_spec (py_len prices) period); [lia|].
    unfold div_int. destruct (Z.eqb_spec (period + 1) 0); [lia|].
    destruct (Z.eqb_spec period 0); [lia|]. cbn [ebind]. unfold py_nones. exact E.
  - rewrite Hsuf. cbn [map app]. rewrite <- app_assoc, nth_error_app2 by (rewrite repeat_length; lia).
    rewrite repeat_length, Nat.sub_diag. reflexivity.
Qed.

Lemma bollinger_spec {R : Type} `{PyNum R} (np_std : list R -> R) (prices : list R)
    period std_dev :
  1 <= period ->
  exists upper middle lower,
    bollinger_bands np_std prices period std_dev = Ok (upper, middle, lower) /\
    sma prices period = Ok middle /\
    length upper = length prices /\ length middle = length prices /\ length lower = length prices /\
    forall i, (i < length prices)%nat ->
      match nth_error middle i with
      | Some None => nth_error upper i = Some None /\ nth_error lower i = Some None
      | Some (Some m) =>
          let std := np_std (py_slice prices (Z.of_nat i - period + 1) (Z.of_nat i + 1)) in
          nth_error upper i = Some (Some (n_add m (n_mul std_dev std))) /\
          nth_error lower i = Some (Some (n_sub m (n_mul std_dev std)))
      | None => False
      end.
Proof.
  intros Hp. destruct (sma_shape prices period Hp) as (vs & Es & Ls).
  set (mid := repeat None (warmup (length prices) period) ++ map Some vs) in *.
  assert (Hlen : length mid = length prices)
    by (unfold mid; rewrite length_app, repeat_length, length_map; exact Ls).
  destruct (exc_map_ok (bollinger_point np_std prices mid period std_dev) (py_range 0 (py_len prices)))
    as (bands & Eb & Lb & Nb).
  { intros i Hi. apply in_py_range in Hi. unfold bollinger_point.
    destruct (py_index_ok mid i) as (x & Ex & _); [unfold py_len in *; lia|].
    rewrite Ex. cbn [ebind]. destruct x; eauto. }
  rewrite py_range_length in Lb. unfold py_len in Lb.
  exists (map fst bands), mid, (map snd bands).
  split; [unfold bollinger_bands; rewrite Es; cbn [ebind]; rewrite Eb; reflexivity|].
  split; [exact Es|].
  rewrite !length_map. split; [lia|]. split; [exact Hlen|]. split; [lia|].
  intros i Hi.
  destruct (Nb i (Z.of_nat i)) as (y & Ey & Ny).
  { apply nth_error_py_range. unfold py_len. lia. }
  destruct (py_index_nat mid i) as (x & Ex & Nx); [lia|].
  rewrite Nx, !nth_error_map, Ny. cbn.
  unfold bollinger_point in Ey. rewrite Ex in Ey. cbn [ebind] in Ey.
  destruct x as [m|]; injection Ey as <-; cbn; split; reflexivity.
Qed.

(** X12. For a period of at least 1, [bollinger_bands] returns three lists as long as the prices
    whose middle one is [sma prices period]; where the middle is [None] so are both bands, and
    elsewhere the bands are the middle plus and minus std_dev times the standard deviation of
    the window ending there. *)
Theorem X_bollinger_bands {R : Type} `{PyNum R} (np_std : list R -> R) (prices : list R)
    period std_dev :
  1 <= period ->
  exists upper middle lower,
    bollinger_bands np_std prices period std_dev = Ok (upper, middle, lower) /\
    sma prices period = Ok middle /\
    length upper = length prices /\ length middle = length prices /\ length lower = length prices /\
    forall i, (i < length prices)%nat ->
      match nth_error middle i with
      | Some None => nth_error upper i = Some None /\ nth_error lower i = Some None
      | Some (Some m) =>
          let std := np_std (py_slice prices (Z.of_nat i - period + 1) (Z.of_nat i + 1)) in
          nth_error upper i = Some (Some (n_add m (n_mul std_dev std))) /\
          nth_error lower i = Some (Some (n_sub m (n_mul std_dev std)))
      | None => False
      end.
Proof. exact (bollinger_spec np_std prices period std_dev). Qed.

(** X13. When the highs and the lows of a full window all equal one value, the stochastic %K at
    the window's end is 50 (the zero-range default), whatever the close. *)
Theorem X_stochastic_flat_window {R : Type} `{PyNum R} (highs lows closes : list R)
    k_period d_period i c :
  1 <= k_period -> 1 <= d_period ->
  length highs = length closes -> length lows = length closes ->
  k_period - 1 <= i < py_len closes ->
  Forall (fun y => y = c) (py_slice highs (i - k_period + 1) (i + 1)) ->
  Forall (fun y => y = c) (py_slice lows (i - k_period + 1) (i + 1)) ->
  n_eqb c c = true ->
  exists k_values d_values,
    stochastic highs lows closes k_period d_period = Ok (k_values, d_values) /\
    nth_error k_values (Z.to_nat i) = Some (Some (n_of_Z 50)).
Proof.
  intros Hk Hd Hh Hl Hi Fh Fl Hc.
  assert (Hkp : forall j, 0 <= j < py_len closes ->
            exists y, k_point highs lows closes k_period j = Ok y).
  { intros j Hj. unfold k_point. destruct (Z.ltb_spec j (k_period - 1)); [eauto|].
    destruct (k_point_some highs lows closes k_period j) as [y Ey];
      unfold py_len in *; try lia.
    unfold k_point in Ey. destruct (Z.ltb_spec j (k_period - 1)); [lia|]. eauto. }
  destruct (exc_map_ok (k_point highs lows closes k_period) (py_range 0 (py_len closes)))
    as (ks & Ek & Lk & Nk).
  { intros j Hj. apply in_py_range in Hj. apply Hkp. lia. }
  destruct (sma_shape (somes ks) d_period Hd) as (vd & Ed & _).
  exists ks, (py_nones (none_count ks) ++ repeat None (warmup (length (somes ks)) d_period)
              ++ map Some vd).
  split.
  - unfold stochastic, py_len at 1 2 3 4. rewrite Hh, Hl, Z.eqb_refl. cbn [negb orb].
    rewrite Ek. cbn [ebind]. rewrite Ed. reflexivity.
  - destruct (Nk (Z.to_nat i) i) as (y & Ey & Ny).
    { replace i with (Z.of_nat (Z.to_nat i)) at 2 by lia. apply nth_error_py_range. lia. }
    rewrite Ny. f_equal.
    unfold k_point in Ey. destruct (Z.ltb_spec i (k_period - 1)); [lia|].
    rewrite (py_max_const _ c) in Ey by (try apply py_slice_nonempty; unfold py_len in *; lia || exact Fh).
    rewrite (py_min_const _ c) in Ey by (try apply py_slice_nonempty; unfold py_len in *; lia || exact Fl).
    cbn [ebind] in Ey. rewrite Hc in Ey. injection Ey as <-. reflexivity.
Qed.

Lemma py_index_neg1 {A} (l : list A) :
  l <> [] -> exists x, py_index l (-1) = Ok x /\ nth_error l (length l - 1) = Some x.
Proof.
  intros Hne. destruct l as [|y l'] using rev_ind; [congruence|].
  exists y. rewrite py_index_last. split; [reflexivity|].
  rewrite length_app. cbn. rewrite nth_error_app2 by lia. replace (length l' + 1 - 1 - length l')%nat with 0%nat by lia.
  reflexivity.
Qed.

Lemma py_slice_tail_nonempty {A} (l : list A) k :
  1 <= k -> 1 <= py_len l -> py_slice l (- k) (py_len l) <> [].
Proof.
  intros Hk Hl. unfold py_slice, py_bound.
  destruct (Z.ltb_spec (- k) 0); [|lia]. destruct (Z.ltb_spec (py_len l) 0); [lia|].
  rewrite Z.min_id. intros Hnil. apply (f_equal (@length A)) in Hnil.
  rewrite length_firstn, length_skipn in Hnil. cbn in Hnil. unfold py_len in *. lia.
Qed.

Lemma macd_warmup_full n :
  (1 <= n)%nat ->
  let cm := Nat.max (warmup n 12) (warmup n 26) in
  (cm = n <-> (n < 26)%nat) /\ ((cm + warmup (n - cm) 9)%nat = n <-> (n < 34)%nat).
Proof.
  intros Hn cm. unfold cm, warmup.
  destruct (Z.ltb_spec (Z.of_nat n) 12); destruct (Z.ltb_spec (Z.of_nat n) 26); try lia.
  all: match goal with |- context [Z.ltb ?a 9] => destruct (Z.ltb_spec a 9) end; lia.
Qed.

Lemma stoch_warmup_full n :
  (1 <= n)%nat ->
  let ck := warmup n 14 in
  (ck = n <-> (n < 14)%nat) /\ ((ck + warmup (n - ck) 3)%nat = n <-> (n < 16)%nat).
Proof.
  intros Hn ck. unfold ck, warmup.
  destruct (Z.ltb_spec (Z.of_nat n) 14).
  all: match goal with |- context [Z.ltb ?a 3] => destruct (Z.ltb_spec a 3) end; lia.
Qed.

Lemma map_rev_cons {A B} (f : A -> B) r rest : map f (rev (r :: rest)) = map f (rev rest) ++ [f r].
Proof. cbn. rewrite map_app. reflexivity. Qed.

Lemma shape_last_none {A} c (vs : list A) n need :
  (c + length vs = n)%nat -> (1 <= n)%nat -> 1 <= need -> c = warmup n need ->
  exists o, py_index (repeat None c ++ map Some vs) (-1) = Ok o /\ (o = None <-> Z.of_nat n < need).
Proof.
  intros Hn H1 Hneed ->. destruct (py_index_last_shape _ vs n Hn H1) as (o & E & Ho).
  exists o. split; [exact E|]. rewrite Ho. apply warmup_full; assumption.
Qed.

(** The [if len(volumes) >= 20] block of [calculate_all_indicators]. *)
Definition volume_step {R : Type} `{PyNum R} (rows : list (Candle R)) : Exc (option (R * R)) :=
  let volumes := map cd_volume (rev rows) in
  if Z.leb 20 (py_len volumes) then
    volume_sma_20 <-? div_int (py_sum (py_slice volumes (-20) (py_len volumes))) 20 ;;
    v <-? py_index volumes (-1) ;;
    volume_ratio <-? py_truediv v volume_sma_20 ;;
    Ok (Some (volume_sma_20, volume_ratio))
  else Ok None.

Section CalcRun.
Context {R : Type} `{PyNum R}.
Variable np_std : list R -> R.
Variables (symbol interval : string) (r : Candle R) (rest : list (Candle R)).

Let rows := r :: rest.
Let n := length rows.

Lemma calc_run :
  exists mk : option (R * R) -> Indicators R,
    calculate_all_indicators np_std (Ok rows) symbol interval =
      (volume <-? volume_step rows ;; Ok (Some (mk volume))) /\
    forall vol, let d := mk vol in
      ind_symbol d = symbol /\ ind_interval d = interval /\
      ind_timestamp d = cd_open_time r /\ ind_current_price d = cd_close r /\
      ind_volume d = vol /\
      (ind_sma_20 d = None <-> (n < 20)%nat) /\ (ind_sma_50 d = None <-> (n < 50)%nat) /\
      (ind_ema_12 d = None <-> (n < 12)%nat) /\ (ind_ema_26 d = None <-> (n < 26)%nat) /\
      (ind_rsi_14 d = None <-> (n < 15)%nat) /\
      (ind_macd_line d = None <-> (n < 26)%nat) /\ (ind_macd_signal d = None <-> (n < 34)%nat) /\
      (ind_macd_histogram d = None <-> (n < 34)%nat) /\
      (ind_bb_upper d = None <-> (n < 20)%nat) /\ ind_bb_middle d = ind_sma_20 d /\
      (ind_bb_lower d = None <-> (n < 20)%nat) /\
      (ind_stoch_k d = None <-> (n < 14)%nat) /\ (ind_stoch_d d = None <-> (n < 16)%nat) /\
      (ind_levels d = None <-> (n < 20)%nat).
Proof.
  unfold calculate_all_indicators. cbn [ebind]. unfold rows at 1. cbv zeta. fold rows.
  assert (Hn1 : (1 <= n)%nat) by (unfold n, rows; cbn; lia).
  assert (Hlen : forall {B} (f : Candle R -> B), length (map f (rev rows)) = n)
    by (intros; rewrite length_map, length_rev; reflexivity).
  assert (Hlast : forall {B} (f : Candle R -> B), py_index (map f (rev rows)) (-1) = Ok (f r))
    by (intros; unfold rows; rewrite map_rev_cons; apply py_index_last).
  rewrite !Hlast. cbn [ebind].
  set (closes := map cd_close (rev rows)).
  assert (Hc : length closes = n) by apply Hlen.
  (* moving averages and RSI *)
  destruct (sma_shape closes 20 ltac:(lia)) as (v20 & E20 & L20).
  destruct (sma_shape closes 50 ltac:(lia)) as (v50 & E50 & L50).
  destruct (ema_shape closes 12 ltac:(lia)) as (e12 & F12 & M12).
  destruct (ema_shape closes 26 ltac:(lia)) as (e26 & F26 & M26).
  destruct (rsi_shape closes 14 ltac:(lia)) as (r14 & G14 & N14).
  rewrite Hc in L20, L50, M12, M26, N14.
  destruct (shape_last_none _ v20 n 20 L20 Hn1 ltac:(lia) eq_refl) as (s20 & S20 & T20).
  destruct (shape_last_none _ v50 n 50 L50 Hn1 ltac:(lia) eq_refl) as (s50 & S50 & T50).
  destruct (shape_last_none _ e12 n 12 M12 Hn1 ltac:(lia) eq_refl) as (s12 & S12 & T12).
  destruct (shape_last_none _ e26 n 26 M26 Hn1 ltac:(lia) eq_refl) as (s26 & S26 & T26).
  destruct (shape_last_none _ r14 n 15 N14 Hn1 ltac:(lia) eq_refl) as (s14 & S14 & T14).
  unfold last_of. rewrite E20, E50, F12, F26, G14, Hc. cbn [ebind].
  rewrite S20, S50, S12, S26, S14. cbn [ebind].
  (* MACD *)
  destruct (macd_shape closes 12 26 9 ltac:(lia) ltac:(lia) ltac:(lia)) as (vm & vs & vh & EM & LM & LS & LH).
  rewrite EM. cbn [ebind]. rewrite Hc in LM, LS, LH.
  destruct (macd_warmup_full n Hn1) as [HW1 HW2].
  destruct (py_index_last_shape _ vm n LM Hn1) as (ml & Eml & Tml).
  destruct (py_index_last_shape _ vs n LS Hn1) as (ms & Ems & Tms).
  destruct (py_index_last_shape _ vh n LH Hn1) as (mh & Emh & Tmh).
  rewrite ?Hc. rewrite Eml, Ems, Emh. cbn [ebind].
  (* Bollinger bands *)
  destruct (bollinger_spec np_std closes 20 (n_of_Z 2) ltac:(lia))
    as (bu & bm & bl & EB & EBm & LBu & LBm & LBl & HB).
  rewrite EB. cbn [ebind]. rewrite E20 in EBm. injection EBm as <-.
  rewrite Hc in LBu, LBl, HB.
  assert (Hne : forall {B} (l : list B), length l = n -> l <> []) by (intros B l Hl ->; cbn in Hl; lia).
  destruct (py_index_neg1 bu (Hne _ _ LBu)) as (xu & Eu & Nu).
  destruct (py_index_neg1 bl (Hne _ _ LBl)) as (xl & El & Nl).
  rewrite ?Hc. rewrite Eu, S20, El. cbn [ebind].
  rewrite LBu in Nu. rewrite LBl in Nl.
  assert (Hbb : (xu = None <-> (n < 20)%nat) /\ (xl = None <-> (n < 20)%nat)).
  { specialize (HB (n - 1)%nat ltac:(lia)).
    destruct (py_index_neg1 (repeat None (warmup n 20) ++ map Some v20)) as (xm & Em & Nm).
    { apply Hne. rewrite length_app, repeat_length, length_map. exact L20. }
    rewrite S20 in Em. injection Em as <-.
    rewrite length_app, repeat_length, length_map, L20 in Nm. rewrite Nm in HB.
    destruct s20 as [m|].
    - destruct HB as [Hu Hl]. rewrite Nu in Hu. rewrite Nl in Hl.
      injection Hu as ->. injection Hl as ->.
      assert (~ (n < 20)%nat) by (intros Hlt; assert (Hz : Z.of_nat n < 20) by lia; apply T20 in Hz; discriminate). split; split; intros; congruence || lia.
    - destruct HB as [Hu Hl]. rewrite Nu in Hu. rewrite Nl in Hl.
      injection Hu as ->. injection Hl as ->.
      assert (Z.of_nat n < 20) by (apply T20; reflexivity). split; split; intros; reflexivity || lia. }
  (* stochastic *)
  destruct (stochastic_shape (map cd_high (rev rows)) (map cd_low (rev rows)) closes 14 3
              ltac:(lia) ltac:(lia) ltac:(rewrite Hlen, Hc; reflexivity) ltac:(rewrite Hlen, Hc; reflexivity))
    as (vk & vd & ES & LK & LD).
  rewrite ES. cbn [ebind]. rewrite Hc in LK, LD.
  destruct (stoch_warmup_full n Hn1) as [HS1 HS2].
  destruct (py_index_last_shape _ vk n LK Hn1) as (sk & Esk & Tsk).
  destruct (py_index_last_shape _ vd n LD Hn1) as (sd & Esd & Tsd).
  rewrite ?Hc. rewrite Esk, Esd. cbn [ebind].
  (* support and resistance *)
  assert (Hlv : exists lv, (if Z.leb 20 (py_len (map cd_high (rev rows))) then
       resistance_20 <-? py_max (py_slice (map cd_high (rev rows)) (-20) (py_len (map cd_high (rev rows)))) ;;
       support_20 <-? py_min (py_slice (map cd_low (rev rows)) (-20) (py_len (map cd_low (rev rows)))) ;;
       Ok (Some (resistance_20, support_20))
     else Ok None) = Ok lv /\ (lv = None <-> (n < 20)%nat)).
  { unfold py_len at 1. rewrite Hlen. destruct (Z.leb_spec 20 (Z.of_nat n)).
    - destruct (py_max_ok (py_slice (map cd_high (rev rows)) (-20) (py_len (map cd_high (rev rows)))))
        as [hi Ehi]; [apply (py_slice_tail_nonempty _ 20); unfold py_len; rewrite ?Hlen; lia|].
      destruct (py_min_ok (py_slice (map cd_low (rev rows)) (-20) (py_len (map cd_low (rev rows)))))
        as [lo Elo]; [apply (py_slice_tail_nonempty _ 20); unfold py_len; rewrite ?Hlen; lia|].
      rewrite Ehi, Elo. cbn [ebind]. eexists. split; [reflexivity|]. split; [discriminate|lia].
    - eexists. split; [reflexivity|]. split; [intros; lia|reflexivity]. }
  destruct Hlv as (lv & Elv & Tlv).
  exists (fun volume => {| ind_symbol := symbol; ind_interval := interval;
    ind_timestamp := cd_open_time r; ind_current_price := cd_close r;
    ind_sma_20 := s20; ind_sma_50 := s50; ind_ema_12 := s12; ind_ema_26 := s26; ind_rsi_14 := s14;
    ind_macd_line := ml; ind_macd_signal := ms; ind_macd_histogram := mh;
    ind_bb_upper := xu; ind_bb_middle := s20; ind_bb_lower := xl;
    ind_stoch_k := sk; ind_stoch_d := sd; ind_volume := volume; ind_levels := lv |}).
  split.
  - rewrite Elv. unfold volume_step. cbv zeta. rewrite Hlast. reflexivity.
  - intros vol. cbn.
    rewrite T20, T50, T12, T26, T14, Tml, HW1, Tms, HW2, Tmh, HW2, Tsk, HS1, Tsd, HS2.
    destruct Hbb as [Hbu Hbl]. rewrite Hbu, Hbl, Tlv.
    unfold n, rows in *. cbn [length] in *. repeat split; lia.
Qed.

End CalcRun.

Section CalcFacts.
Context {R : Type} `{PyNum R}.

(** X14. [calculate_all_indicators] returns no indicators for an empty candle list; otherwise it
    raises a float [ZeroDivisionError] exactly when there are at least 20 candles and the mean
    of the last 20 volumes is zero, and else returns indicators with the symbol, interval,
    open_time and close of the newest candle. *)
Theorem X_calculate_all_indicators_outcome (np_std : list R -> R) symbol interval (rows : list (Candle R)) :
  match rows with
  | [] => calculate_all_indicators np_std (Ok rows) symbol interval = Ok None
  | r :: _ =>
      let volumes := map cd_volume (rev rows) in
      if Z.leb 20 (py_len volumes) &&
         n_eqb (n_div (py_sum (py_slice volumes (-20) (py_len volumes))) (n_of_Z 20)) n_zero
      then calculate_all_indicators np_std (Ok rows) symbol interval =
             Raise "ZeroDivisionError: float division by zero"
      else exists d, calculate_all_indicators np_std (Ok rows) symbol interval = Ok (Some d) /\
             ind_symbol d = symbol /\ ind_interval d = interval /\
             ind_timestamp d = cd_open_time r /\ ind_current_price d = cd_close r
  end.
Proof.
  destruct rows as [|r rest]; [reflexivity|]. cbv zeta.
  destruct (calc_run np_std symbol interval r rest) as (mk & E & F).
  rewrite E. unfold volume_step.
  assert (Hv : py_index (map cd_volume (rev (r :: rest))) (-1) = Ok (cd_volume r))
    by (rewrite map_rev_cons; apply py_index_last).
  rewrite Hv. unfold div_int, py_truediv. cbn [Z.eqb ebind].
  destruct (Z.leb 20 _); cbn [andb ebind].
  - destruct (n_eqb _ n_zero); cbn [ebind]; [reflexivity|].
    eexists. split; [reflexivity|].
    match goal with |- ind_symbol (mk ?v) = _ /\ _ => destruct (F v) as (F1 & F2 & F3 & F4 & _) end.
    auto.
  - eexists. split; [reflexivity|]. destruct (F None) as (F1 & F2 & F3 & F4 & _). auto.
Qed.

(** X15. In the indicators computed from n candles, each indicator is [None] exactly when n is
    below its warm-up length: 20 for sma_20, Bollinger bands, volume and levels; 50, 12, 26 for
    sma_50, ema_12, ema_26; 15 for rsi_14; 26 for the MACD line and 34 for its signal and
    histogram; 14 and 16 for %K and %D; bb_middle is sma_20. *)
Theorem X_indicator_availability (np_std : list R -> R) symbol interval (rows : list (Candle R))
    (d : Indicators R) :
  calculate_all_indicators np_std (Ok rows) symbol interval = Ok (Some d) ->
  let n := length rows in
  (ind_sma_20 d = None <-> (n < 20)%nat) /\ (ind_sma_50 d = None <-> (n < 50)%nat) /\
  (ind_ema_12 d = None <-> (n < 12)%nat) /\ (ind_ema_26 d = None <-> (n < 26)%nat) /\
  (ind_rsi_14 d = None <-> (n < 15)%nat) /\
  (ind_macd_line d = None <-> (n < 26)%nat) /\ (ind_macd_signal d = None <-> (n < 34)%nat) /\
  (ind_macd_histogram d = None <-> (n < 34)%nat) /\
  (ind_bb_upper d = None <-> (n < 20)%nat) /\ ind_bb_middle d = ind_sma_20 d /\
  (ind_bb_lower d = None <-> (n < 20)%nat) /\
  (ind_stoch_k d = None <-> (n < 14)%nat) /\ (ind_stoch_d d = None <-> (n < 16)%nat) /\
  (ind_volume d = None <-> (n < 20)%nat) /\ (ind_levels d = None <-> (n < 20)%nat).
Proof.
  intros E n. destruct rows as [|r rest]; [discriminate|].
  destruct (calc_run np_std symbol interval r rest) as (mk & E' & F).
  rewrite E' in E. clear E'.
  assert (Hvol : exists v, volume_step (r :: rest) = Ok v /\ (v = None <-> (n < 20)%nat) /\ d = mk v).
  { unfold volume_step in *. cbv zeta in E |- *. unfold py_len at 1 in E. unfold py_len at 1.
    rewrite length_map, length_rev in E |- *. fold n in E |- *.
    destruct (Z.leb_spec 20 (Z.of_nat n)).
    - destruct (div_int _ 20); cbn [ebind] in E |- *; [|discriminate].
      destruct (py_index _ (-1)); cbn [ebind] in E |- *; [|discriminate].
      destruct (py_truediv _ _); cbn [ebind] in E |- *; [|discriminate].
      injection E as <-. eexists. split; [reflexivity|]. split; [split; [discriminate|lia]|reflexivity].
    - cbn [ebind] in E. injection E as <-. eexists. split; [reflexivity|].
      split; [split; [lia|reflexivity]|reflexivity]. }
  destruct Hvol as (v & _ & Hv & ->).
  destruct (F v) as (_ & _ & _ & _ & F5 & F6 & F7 & F8 & F9 & F10 & F11 & F12 & F13 & F14 & F15 & F16 & F17 & F18 & F19).
  rewrite F5. unfold n in *. tauto.
Qed.
End CalcFacts.

Section SignalFacts.
Context {R : Type} `{PyNum R} `{PyOrd R}.

Definition one_signal (name : string) (l : list (Signal R)) : Prop :=
  l = [] \/ exists g, l = [g] /\ sg_indicator g = name /\ (sg_type g = "BUY" \/ sg_type g = "SELL").

Lemma rsi_signals_one ind : one_signal "RSI" (rsi_signals ind).
Proof. unfold one_signal, rsi_signals. repeat case_match; eauto 10. Qed.
Lemma macd_signals_one ind : one_signal "MACD" (macd_signals ind).
Proof. unfold one_signal, macd_signals. repeat case_match; eauto 10. Qed.
Lemma bb_signals_one ind : one_signal "BB" (bb_signals ind).
Proof. unfold one_signal, bb_signals. repeat case_match; eauto 10. Qed.
Lemma stoch_signals_one ind : one_signal "STOCH" (stoch_signals ind).
Proof. unfold one_signal, stoch_signals. repeat case_match; eauto 10. Qed.

Lemma one_signal_sublist name l k rest :
  one_signal name l -> k `sublist_of` rest -> map sg_indicator l ++ k `sublist_of` name :: rest.
Proof.
  intros [->|(g & -> & Hg & _)] Hk; cbn.
  - apply sublist_cons. exact Hk.
  - rewrite Hg. apply sublist_skip. exact Hk.
Qed.

Lemma one_signal_types name l :
  one_signal name l -> Forall (fun g => sg_type g = "BUY" \/ sg_type g = "SELL") l.
Proof. intros [->|(g & -> & _ & Ht)]; [constructor|]. constructor; [exact Ht|constructor]. Qed.

Lemma one_signal_in name l g : one_signal name l -> In g l -> sg_indicator g = name.
Proof. intros [->|(g' & -> & Hg & _)] Hin; [destruct Hin|]. destruct Hin as [<-|[]]. exact Hg. Qed.

(** X17. [get_signals] keeps, in order, the signal entries of the rows that produced at least
    one signal; each entry has at most one signal per indicator, in the order RSI, MACD, BB,
    STOCH, and each signal is a BUY or a SELL. *)
Theorem X_get_signals_shape (inds : list (IndicatorRecord R)) :
  get_signals inds =
    List.filter (fun e => match se_signals e with [] => false | _ :: _ => true end) (map signal_of inds) /\
  Forall (fun e => se_signals e <> [] /\
            map sg_indicator (se_signals e) `sublist_of` ["RSI"; "MACD"; "BB"; "STOCH"] /\
            Forall (fun g => sg_type g = "BUY" \/ sg_type g = "SELL") (se_signals e))
    (get_signals inds).
Proof.
  assert (Hall : forall ind, let e := signal_of ind in
            map sg_indicator (se_signals e) `sublist_of` ["RSI"; "MACD"; "BB"; "STOCH"] /\
            Forall (fun g => sg_type g = "BUY" \/ sg_type g = "SELL") (se_signals e)).
  { intros ind. cbn. rewrite !map_app. split.
    - apply one_signal_sublist; [apply rsi_signals_one|].
      apply one_signal_sublist; [apply macd_signals_one|].
      apply one_signal_sublist; [apply bb_signals_one|].
      rewrite <- (app_nil_r (map sg_indicator (stoch_signals ind))).
      apply one_signal_sublist; [apply stoch_signals_one|]. constructor.
    - rewrite !Forall_app. repeat split; eapply one_signal_types;
        [apply rsi_signals_one|apply macd_signals_one|apply bb_signals_one|apply stoch_signals_one]. }
  induction inds as [|ind rest IH]; [split; [reflexivity|constructor]|].
  destruct IH as [IH1 IH2]. cbn [get_signals map List.filter].
  destruct (se_signals (signal_of ind)) eqn:E.
  - split; [exact IH1|exact IH2].
  - rewrite IH1. split; [reflexivity|]. constructor; [|rewrite <- IH1; exact IH2].
    split; [rewrite E; discriminate|]. apply Hall.
Qed.

(** X18. A row yields an RSI signal exactly when its rsi_14 is present, nonzero (a stored 0
    counts as missing) and below 30 or above 70; the signal carries the RSI value and is a BUY
    exactly when it is below 30. *)
Theorem X_rsi_signal (ind : IndicatorRecord R) :
  ((exists g, In g (se_signals (signal_of ind)) /\ sg_indicator g = "RSI") <->
   exists x, ti_rsi_14 ind = Some x /\ n_eqb x n_zero = false /\
             n_ltb x (n_of_Z 30) || n_ltb (n_of_Z 70) x = true) /\
  (forall g, In g (se_signals (signal_of ind)) -> sg_indicator g = "RSI" ->
   exists x, ti_rsi_14 ind = Some x /\ sg_value g = Some x /\
             (sg_type g = "BUY" <-> n_ltb x (n_of_Z 30) = true)).
Proof.
  assert (Hin : forall g, In g (se_signals (signal_of ind)) -> sg_indicator g = "RSI" ->
            In g (rsi_signals ind)).
  { intros g Hg Hi. cbn in Hg. rewrite !in_app_iff in Hg.
    destruct Hg as [Hg|[Hg|[Hg|Hg]]]; [exact Hg| |  | ];
      [pose proof (one_signal_in _ _ g (macd_signals_one ind) Hg)
      |pose proof (one_signal_in _ _ g (bb_signals_one ind) Hg)
      |pose proof (one_signal_in _ _ g (stoch_signals_one ind) Hg)]; congruence. }
  assert (Hsub : forall g, In g (rsi_signals ind) -> In g (se_signals (signal_of ind)))
    by (intros g Hg; cbn; rewrite in_app_iff; left; exact Hg).
  unfold rsi_signals, dec_truthy in *. split; [split|].
  - intros (g & Hg & Hi). specialize (Hin g Hg Hi).
    destruct (ti_rsi_14 ind) as [x|]; [|destruct Hin].
    destruct (n_eqb x n_zero) eqn:Ez; [destruct Hin|].
    exists x. split; [reflexivity|]. split; [exact Ez|].
    destruct (n_ltb x (n_of_Z 30)); [reflexivity|].
    destruct (n_ltb (n_of_Z 70) x); [reflexivity|destruct Hin].
  - intros (x & Ex & Ez & Hc). rewrite Ex, Ez in Hsub.
    destruct (n_ltb x (n_of_Z 30)) eqn:E30.
    + eexists. split; [apply Hsub; left; reflexivity|reflexivity].
    + cbn in Hc. rewrite Hc in Hsub. eexists. split; [apply Hsub; left; reflexivity|reflexivity].
  - intros g Hg Hi. specialize (Hin g Hg Hi).
    destruct (ti_rsi_14 ind) as [x|]; [|destruct Hin].
    destruct (n_eqb x n_zero); [destruct Hin|].
    exists x. split; [reflexivity|].
    destruct (n_ltb x (n_of_Z 30)) eqn:E30.
    + destruct Hin as [<-|[]]. cbn. split; [reflexivity|]. split; reflexivity.
    + destruct (n_ltb (n_of_Z 70) x); [|destruct Hin].
      destruct Hin as [<-|[]]. cbn. split; [reflexivity|]. split; [discriminate|]. intros; discriminate.
Qed.

End SignalFacts.

Section LoopFacts.
Context {R : Type} `{PyNum R}.
Variable np_std : list R -> R.

Lemma calculate_none_iff symbol interval (candles : Exc (list (Candle R))) :
  calculate_all_indicators np_std candles symbol interval = Ok None <-> candles = Ok [].
Proof.
  split; [|intros ->; reflexivity].
  destruct candles as [[|r rest]|e]; [reflexivity| |discriminate].
  destruct (calc_run np_std symbol interval r rest) as (mk & E & _). rewrite E.
  destruct (volume_step (r :: rest)); discriminate.
Qed.

Definition no_candles (query : string -> Exc (list (Candle R))) (t : string) : bool :=
  match query t with Ok [] => true | _ => false end.

Lemma calculate_loop_counts interval query execute tokens p e :
  let '(p', e') := calculate_loop np_std interval query execute tokens p e in
  p <= p' /\ e <= e' /\
  p' + e' + Z.of_nat (length (List.filter (no_candles query) tokens)) = p + e + Z.of_nat (length tokens).
Proof.
  revert p e. induction tokens as [|t rest IH]; intros p e; [cbn; lia|].
  cbn [calculate_loop List.filter length].
  pose proof (calculate_none_iff t interval (query t)) as Hn.
  unfold no_candles at 1.
  destruct (calculate_all_indicators np_std (query t) t interval) as [[d|]|msg] eqn:Ec; cbn [ebind].
  - assert (Hb : match query t with Ok [] => true | _ => false end = false).
    { destruct (query t) as [[|]|]; try reflexivity. exfalso. destruct Hn as [_ Hn]. specialize (Hn eq_refl). discriminate. }
    rewrite Hb. cbn [save_indicators].
    destruct (execute d); cbn [ebind].
    + specialize (IH (p + 1) e). destruct (calculate_loop _ _ _ _ _ _ _) as [p' e']. lia.
    + specialize (IH p (e + 1)). destruct (calculate_loop _ _ _ _ _ _ _) as [p' e']. lia.
  - destruct Hn as [Hn _]. rewrite (Hn eq_refl). cbn [length].
    specialize (IH p e). destruct (calculate_loop _ _ _ _ _ _ _) as [p' e']. lia.
  - assert (Hb : match query t with Ok [] => true | _ => false end = false).
    { destruct (query t) as [[|]|]; try reflexivity. discriminate. }
    rewrite Hb. specialize (IH p (e + 1)). destruct (calculate_loop _ _ _ _ _ _ _) as [p' e']. lia.
Qed.

(** X16. [calculate_for_all_tokens] returns nonnegative totals, and every token is counted once:
    as processed, as an error, or as a token with no candles. *)
Theorem X_calculate_for_all_tokens_counts (tokens : list string) interval query execute :
  exists total_processed errors,
    calculate_for_all_tokens np_std (Ok tokens) interval query execute = Ok (total_processed, errors) /\
    0 <= total_processed /\ 0 <= errors /\
    total_processed + errors + Z.of_nat (length (List.filter (no_candles query) tokens)) =
      Z.of_nat (length tokens).
Proof.
  pose proof (calculate_loop_counts interval query execute tokens 0 0) as Hc.
  unfold calculate_for_all_tokens. cbn [ebind].
  destruct (calculate_loop _ _ _ _ _ _ _) as [p e].
  exists p, e. split; [reflexivity|]. lia.
Qed.

End LoopFacts.

(** * Instances of the further properties *)

Lemma X_error_count_streak_witness :
  let sts := map upd_status ([(0, "error", Some "timeout")] ++ [(3600000, "error", Some "timeout")]) in
  let '(r, w') := run_updates env_boot_ok "BTCUSDT" "1h"
                    ([(0, "error", Some "timeout")] ++ [(3600000, "error", Some "timeout")]) w_zero_cursor in
  r = Ok tt /\
  exists c, st_control (w_db w') !! ("BTCUSDT", "1h") = Some c /\
    last_collected_time c = Some 3600000 /\ status c = "error" /\ last_error c = Some "timeout" /\
    error_count c = Z.of_nat (error_streak sts) +
      (if forallb (fun s => String.eqb s "error") sts
       then cursor_errors (st_control (w_db w_zero_cursor) !! ("BTCUSDT", "1h")) else 0).
Proof.
  exact (X_error_count_streak env_boot_ok "BTCUSDT" "1h" [(0, "error", Some "timeout")]
           3600000 "error" (Some "timeout") w_zero_cursor eq_refl).
Defined.

Definition row_b : CandleRow := mkCandleRow "ETHUSDT" "1h" 7200000 10799999 [].

Lemma X_insert_candles_ignore_witness :
  let '(r, w') := insert_candles env_dup [row_a; row_b] w_dup in
  exists added,
    r = Ok (Z.of_nat (length added)) /\
    st_candles (w_db w') = st_candles (w_db w_dup) ++ added /\
    st_control (w_db w') = st_control (w_db w_dup) /\ st_logs (w_db w') = st_logs (w_db w_dup) /\
    keys_unique (st_candles (w_db w')) /\
    (forall x, In x added -> In x [row_a; row_b]) /\
    (forall x, In x [row_a; row_b] -> exists y, In y (st_candles (w_db w')) /\ candle_key y = candle_key x).
Proof.
  exact (X_insert_candles_ignore env_dup [row_a; row_b] w_dup
           (NoDup_singleton (candle_key row_a)) eq_refl).
Defined.

Lemma X_last_candle_time_witness :
  exists r, get_last_candle_time env_dup "ETHUSDT" "1h" w_dup = (Ok r, w_dup) /\
  match r with
  | Some m =>
      m <> 0 /\
      (exists c, In c (st_candles (w_db w_dup)) /\ of_pair "ETHUSDT" "1h" c /\ c_open_time c = m) /\
      (forall c, In c (st_candles (w_db w_dup)) -> of_pair "ETHUSDT" "1h" c -> c_open_time c <= m)
  | None =>
      (forall c, In c (st_candles (w_db w_dup)) -> ~ of_pair "ETHUSDT" "1h" c) \/
      ((exists c, In c (st_candles (w_db w_dup)) /\ of_pair "ETHUSDT" "1h" c /\ c_open_time c = 0) /\
       (forall c, In c (st_candles (w_db w_dup)) -> of_pair "ETHUSDT" "1h" c -> c_open_time c <= 0))
  end.
Proof. exact (X_last_candle_time env_dup "ETHUSDT" "1h" w_dup eq_refl). Defined.

Lemma X_collect_never_raises_witness :
  exists res, fst (collect_single_symbol env_fetch_fails "BTCUSDT" "1h" None None 1000 w_cursor_behind) = Ok res.
Proof.
  exact (X_collect_never_raises env_fetch_fails "BTCUSDT" "1h" None None 1000 w_cursor_behind
           eq_refl eq_refl eq_refl).
Defined.



Lemma X_all_tokens_one_request_each_witness :
  let '(r, w') := collect_all_tokens_single env_boot_ok (fun _ => false) ["BTCUSDT"; "ETHUSDT"] "1h" 1500 w_empty in
  exists total errors calls,
    r = Ok (total, errors) /\ 0 <= errors <= Z.of_nat (length ["BTCUSDT"; "ETHUSDT"]) /\
    w_calls w' = w_calls w_empty ++ calls /\ map rq_symbol calls = ["BTCUSDT"; "ETHUSDT"] /\
    Forall (fun rq => rq_interval rq = "1h" /\ rq_end rq = None /\ rq_limit rq = Z.min 1500 1000)
      calls.
Proof.
  exact (X_all_tokens_one_request_each env_boot_ok (fun _ => false) ["BTCUSDT"; "ETHUSDT"] "1h" 1500
           3600000 w_empty (fun _ => eq_refl) eq_refl eq_refl eq_refl eq_refl eq_refl).
Defined.

Definition w_cursor_2d : World :=
  mkWorld (mkStore [] {[("BTCUSDT", "2d") := mkCursor (Some 3600000) "active" 0 None]} []) [].

Lemma X_all_tokens_unknown_interval_witness :
  collect_all_tokens_single env_boot_ok (fun _ => false) ["BTCUSDT"; "ETHUSDT"] "2d" 1000 w_cursor_2d =
    (Raise "'2d'", w_cursor_2d).
Proof.
  exact (X_all_tokens_unknown_interval env_boot_ok (fun _ => false) "BTCUSDT" ["ETHUSDT"] "2d" 1000
           w_cursor_2d (mkCursor (Some 3600000) "active" 0 None) "'2d'"
           eq_refl eq_refl eq_refl ltac:(vm_compute; discriminate) eq_refl).
Defined.

Definition prices_f : list PrimFloat.float := map float_of_Z [1; 2; 3; 4; 6].

Lemma X_ema_lengths_witness :
  exists out, ema prices_f 2 = Ok out /\ none_prefix out (length prices_f) (warmup (length prices_f) 2).
Proof. exact (X_ema_lengths prices_f 2 ltac:(lia)). Defined.

Lemma X_ema_seed_is_sma_witness :
  exists e s x, ema prices_f 3 = Ok e /\ sma prices_f 3 = Ok s /\
    nth_error e (Z.to_nat (3 - 1)) = Some (Some x) /\
    nth_error s (Z.to_nat (3 - 1)) = Some (Some x).
Proof. exact (X_ema_seed_is_sma prices_f 3 ltac:(vm_compute; split; discriminate)). Defined.

Lemma X_bollinger_bands_witness :
  exists upper middle lower,
    bollinger_bands (fun _ => float_of_Z 1) prices_f 2 (float_of_Z 2) = Ok (upper, middle, lower) /\
    sma prices_f 2 = Ok middle /\
    length upper = length prices_f /\ length middle = length prices_f /\ length lower = length prices_f /\
    forall i, (i < length prices_f)%nat ->
      match nth_error middle i with
      | Some None => nth_error upper i = Some None /\ nth_error lower i = Some None
      | Some (Some m) =>
          let std := (fun _ => float_of_Z 1) (py_slice prices_f (Z.of_nat i - 2 + 1) (Z.of_nat i + 1)) in
          nth_error upper i = Some (Some (n_add m (n_mul (float_of_Z 2) std))) /\
          nth_error lower i = Some (Some (n_sub m (n_mul (float_of_Z 2) std)))
      | None => False
      end.
Proof. exact (X_bollinger_bands (fun _ => float_of_Z 1) prices_f 2 (float_of_Z 2) ltac:(lia)). Defined.

Definition flat_f : list PrimFloat.float := map float_of_Z [5; 5; 5].

Lemma X_stochastic_flat_window_witness :
  exists k_values d_values,
    stochastic flat_f flat_f flat_f 2 1 = Ok (k_values, d_values) /\
    nth_error k_values (Z.to_nat 1) = Some (Some (n_of_Z 50)).
Proof.
  exact (X_stochastic_flat_window flat_f flat_f flat_f 2 1 1 (float_of_Z 5)
           ltac:(lia) ltac:(lia) eq_refl eq_refl ltac:(unfold py_len; cbn; lia)
           ltac:(vm_compute; repeat constructor) ltac:(vm_compute; repeat constructor) eq_refl).
Defined.

Definition candle_f (t c : Z) : Candle PrimFloat.float :=
  mkCandle t (float_of_Z c) (float_of_Z (c + 1)) (float_of_Z (c - 1)) (float_of_Z c) (float_of_Z 10).

(** Twenty candles, newest first. *)
Definition rows_f : list (Candle PrimFloat.float) :=
  map (fun k => candle_f (3600000 * (20 - k)) (100 + k)) (py_range 0 20).

(** The indicators of [rows_f], as computed. *)
Definition ind_f : Indicators PrimFloat.float :=
  Eval vm_compute in
  match calculate_all_indicators (fun _ => float_of_Z 1) (Ok rows_f) "BTCUSDT" "1h" with
  | Ok (Some d) => d
  | _ => mkIndicators "" "" 0 (float_of_Z 0) None None None None None None None None None None None
           None None None None
  end.

Lemma X_indicator_availability_witness :
  calculate_all_indicators (fun _ => float_of_Z 1) (Ok rows_f) "BTCUSDT" "1h" = Ok (Some ind_f) /\
  let n := length rows_f in
  (ind_sma_20 ind_f = None <-> (n < 20)%nat) /\ (ind_sma_50 ind_f = None <-> (n < 50)%nat) /\
  (ind_ema_12 ind_f = None <-> (n < 12)%nat) /\ (ind_ema_26 ind_f = None <-> (n < 26)%nat) /\
  (ind_rsi_14 ind_f = None <-> (n < 15)%nat) /\
  (ind_macd_line ind_f = None <-> (n < 26)%nat) /\ (ind_macd_signal ind_f = None <-> (n < 34)%nat) /\
  (ind_macd_histogram ind_f = None <-> (n < 34)%nat) /\
  (ind_bb_upper ind_f = None <-> (n < 20)%nat) /\ ind_bb_middle ind_f = ind_sma_20 ind_f /\
  (ind_bb_lower ind_f = None <-> (n < 20)%nat) /\
  (ind_stoch_k ind_f = None <-> (n < 14)%nat) /\ (ind_stoch_d ind_f = None <-> (n < 16)%nat) /\
  (ind_volume ind_f = None <-> (n < 20)%nat) /\ (ind_levels ind_f = None <-> (n < 20)%nat).
Proof.
  assert (E : calculate_all_indicators (fun _ => float_of_Z 1) (Ok rows_f) "BTCUSDT" "1h" = Ok (Some ind_f))
    by (vm_compute; reflexivity).
  split; [exact E|].
  exact (X_indicator_availability (fun _ => float_of_Z 1) "BTCUSDT" "1h" rows_f ind_f E).
Defined.
